(** * Builder: placement and stitching of building blocks on a periodic net

    A shallow embedding of [cyanide/builder.py] (class [Builder], method
    [build] and its local function [find_matched_atom_indices]).

    Conventions of the embedding.
    - Python floats are idealised as rationals ([Q]); [np.linalg.norm s < 1e-3]
      is expressed on the squared norm, [s.s < 1e-6], which is the same test
      on exact numbers.
    - Python exceptions are the constructors of [error]; every fallible step
      lives in the monad [result].  The [assert] of line 31 is taken as
      Python runs it by default (assertions enabled).
    - Point and atom indices are natural numbers (the topology contract hands
      out non-negative indices); node and edge types are integers.
    - The collaborators that are not part of [builder.py] (building blocks,
      [Scaler], [Locator], [LocalStructure.matching_permutation]) are taken
      through their interfaces: a type class for building blocks and section
      variables for the services of [self.scaler] and [self.locator].  The
      locator returns a fresh block for every call, so [set_center] on one
      located block moves no other; [bonds] of a block is an array of index
      pairs.
    - Left out, as they change no value that [build] computes: the progress
      messages ([echo]), the warm-up of the cached [bonds] of the templates
      (lines 35-41), and the [None] entries a scaler may add to the
      [defaultdict] by looking up missing keys (the loops over the mapping
      skip [None] values). *)

From Stdlib Require Import List Arith ZArith QArith Qabs Qfield Bool Lia Lqa.
Import ListNotations.

Set Implicit Arguments.
Close Scope Q_scope.

(* ------------------------------------------------------------------ *)
(** ** Errors *)

Inductive error : Type :=
| AssertionError      (* [assert] failed *)
| UnboundLocalError   (* a local read before any assignment *)
| IndexError          (* list or array index out of range *)
| AttributeError      (* attribute access on [None] *)
| TypeError           (* [None] used where an index array is needed *)
| ValueError          (* unpacking or concatenation of the wrong shape *)
| LinAlgError         (* [np.linalg.inv] of a singular matrix *)
| ShapeMismatch       (* raised by the Locator *)
| NoMatchFound.       (* raised by the permutation matcher *)

Inductive result (A : Type) : Type :=
| Ok (a : A)
| Err (e : error).

Arguments Ok {A} a.
Arguments Err {A} e.

Definition bind {A B : Type} (m : result A) (f : A -> result B) : result B :=
  match m with
  | Ok a => f a
  | Err e => Err e
  end.

Declare Scope result_scope.
Delimit Scope result_scope with result.
Notation "x <- m ;; k" := (bind m (fun x => k))
  (at level 61, m at next level, right associativity) : result_scope.
Notation "' p <- m ;; k" := (bind m (fun x => let p := x in k))
  (at level 61, p pattern, m at next level, right associativity) : result_scope.
Open Scope result_scope.

Definition is_ok {A : Type} (m : result A) : bool :=
  match m with Ok _ => true | Err _ => false end.

(** [l[i]] on a Python list or a numpy array, for a non-negative [i]. *)
Definition getitem {A : Type} (l : list A) (i : nat) : result A :=
  match nth_error l i with
  | Some a => Ok a
  | None => Err IndexError
  end.

(** [l[i] = x] on a Python list: raises when [i] is out of range. *)
Fixpoint setitem {A : Type} (l : list A) (i : nat) (x : A) : result (list A) :=
  match l, i with
  | [], _ => Err IndexError
  | _ :: r, O => Ok (x :: r)
  | a :: r, S j => r' <- setitem r j x ;; Ok (a :: r')
  end.

(** [x.attr] where [x] may be [None]. *)
Definition deref {A : Type} (x : option A) : result A :=
  match x with
  | Some a => Ok a
  | None => Err AttributeError
  end.

(* ------------------------------------------------------------------ *)
(** ** Vectors and 3x3 matrices *)

Definition vec : Type := (Q * Q * Q)%type.
Definition mat3 : Type := (vec * vec * vec)%type.

Definition vx (v : vec) : Q := fst (fst v).
Definition vy (v : vec) : Q := snd (fst v).
Definition vz (v : vec) : Q := snd v.

Definition vadd (a b : vec) : vec :=
  (vx a + vx b, vy a + vy b, vz a + vz b)%Q.
Definition vsub (a b : vec) : vec :=
  (vx a - vx b, vy a - vy b, vz a - vz b)%Q.
Definition vscale (k : Q) (a : vec) : vec :=
  (k * vx a, k * vy a, k * vz a)%Q.
Definition dot (a b : vec) : Q :=
  (vx a * vx b + vy a * vy b + vz a * vz b)%Q.
Definition vmap (f : Q -> Q) (a : vec) : vec :=
  (f (vx a), f (vy a), f (vz a)).
Definition veq (a b : vec) : Prop :=
  (vx a == vx b)%Q /\ (vy a == vy b)%Q /\ (vz a == vz b)%Q.

Definition Qltb (x y : Q) : bool := negb (Qle_bool y x).

(** [np.linalg.norm(s) < 1e-3]. *)
Definition norm_below_tol (s : vec) : bool := Qltb (dot s s) (1 # 1000000)%Q.

(** [v @ m]: a row vector times a matrix given by its rows. *)
Definition vecmat (v : vec) (m : mat3) : vec :=
  let '(r0, r1, r2) := m in
  vadd (vscale (vx v) r0) (vadd (vscale (vy v) r1) (vscale (vz v) r2)).

Definition det3 (m : mat3) : Q :=
  let '(r0, r1, r2) := m in
  (vx r0 * (vy r1 * vz r2 - vz r1 * vy r2)
   - vy r0 * (vx r1 * vz r2 - vz r1 * vx r2)
   + vz r0 * (vx r1 * vy r2 - vy r1 * vx r2))%Q.

(** [np.linalg.inv(m)], by the adjugate; a singular matrix raises. *)
Definition linalg_inv (m : mat3) : result mat3 :=
  let '(r0, r1, r2) := m in
  let d := det3 m in
  if Qeq_bool d 0 then Err LinAlgError
  else
    let k := (/ d)%Q in
    Ok ( vscale k ((vy r1 * vz r2 - vz r1 * vy r2),
                   (vz r0 * vy r2 - vy r0 * vz r2),
                   (vy r0 * vz r1 - vz r0 * vy r1))%Q,
         vscale k ((vz r1 * vx r2 - vx r1 * vz r2),
                   (vx r0 * vz r2 - vz r0 * vx r2),
                   (vz r0 * vx r1 - vx r0 * vz r1))%Q,
         vscale k ((vx r1 * vy r2 - vy r1 * vx r2),
                   (vy r0 * vx r2 - vx r0 * vy r2),
                   (vx r0 * vy r1 - vy r0 * vx r1))%Q ).

(** The two [np.where] lines of the edge placement, on one component:
    [s = np.where(s > 0.5, s - 1.0, s)], then
    [s = np.where(s < -0.5, s + 1.0, s)]. *)
Definition where_gt_half (s : Q) : Q :=
  if Qltb (1 # 2)%Q s then (s - 1)%Q else s.
Definition where_lt_mhalf (s : Q) : Q :=
  if Qltb s (- (1 # 2))%Q then (s + 1)%Q else s.
Definition wrap_component (s : Q) : Q := where_lt_mhalf (where_gt_half s).

(** Lines 143-149: [d = r2 - r1; s = d @ invc; wrap; d = s @ c]. *)
Definition fractional (invc : mat3) (d : vec) : vec := vecmat d invc.
Definition wrapped_fractional (invc : mat3) (d : vec) : vec :=
  vmap wrap_component (fractional invc d).
Definition minimum_image (c invc : mat3) (d : vec) : vec :=
  vecmat (wrapped_fractional invc d) c.

(* ------------------------------------------------------------------ *)
(** ** Data model *)

(** A neighbour record of the topology. *)
Record Neighbor : Type := mkNeighbor {
  index : nat;
  distance_vector : vec
}.

(** [LocalStructure(positions, indices)]. *)
Record LocalStructure : Type := mkLocalStructure {
  ls_positions : list vec;
  ls_indices : list nat
}.

Definition EdgeType : Type := (Z * Z)%type.

Definition edge_type_eqb (a b : EdgeType) : bool :=
  Z.eqb (fst a) (fst b) && Z.eqb (snd a) (snd b).

(** The read-only interface of a topology object. *)
Record Topology : Type := mkTopology {
  n_node_types : nat;
  n_all_points : nat;
  node_indices : list nat;
  edge_indices : list nat;
  get_node_type : nat -> Z;
  get_edge_type : nat -> EdgeType;
  neighbor_list : list (list Neighbor);
  local_structure : nat -> LocalStructure;
  atoms_position : list vec;       (* [topology.atoms[i].position] *)
  cell : mat3                      (* [topology.atoms.cell] *)
}.

(** The interface of a building block as the builder uses it.
    [n_atoms] is the length of [atoms_positions]. *)
Class BuildingBlock (B : Type) : Type := {
  atoms_positions : B -> list vec;
  bonds : B -> list (nat * nat);
  connection_point_indices : B -> list nat;
  bb_local_structure : B -> LocalStructure;
  set_center : vec -> B -> B
}.

Definition n_atoms {B : Type} `{BuildingBlock B} (b : B) : nat :=
  length (atoms_positions b).

(** The arguments handed to the output container [MOF(atoms, bonds, wrap)]. *)
Record MOF : Type := mkMOF {
  mof_positions : list vec;
  mof_pbc : bool;
  mof_cell : mat3;
  mof_bonds : list (nat * nat);
  mof_wrap : bool
}.

(** [arr[perm]]: numpy indexing of an array by an integer array. *)
Fixpoint take_indices {A : Type} (arr : list A) (perm : list nat)
  : result (list A) :=
  match perm with
  | [] => Ok []
  | p :: ps =>
      a <- getitem arr p ;;
      r <- take_indices arr ps ;;
      Ok (a :: r)
  end.

(* ------------------------------------------------------------------ *)
(** ** The builder *)

Section Builder.

Context {B : Type} `{BuildingBlock B}.

(** [self.scaler.scale], [self.locator.locate] and
    [LocalStructure.matching_permutation]. *)
Variable scale : Topology -> list B -> list (EdgeType * option B) -> Topology.
Variable locate : LocalStructure -> B -> result (B * Q).
Variable matching_permutation :
  LocalStructure -> LocalStructure -> result (list nat).

(** [n1, n2 = topology.neighbor_list[e]]. *)
Definition edge_records (topology : Topology) (e : nat)
  : result (Neighbor * Neighbor) :=
  nl <- getitem (neighbor_list topology) e ;;
  match nl with
  | [n1; n2] => Ok (n1, n2)
  | _ => Err ValueError
  end.

(** The zero-sum test of lines 100-102. *)
Definition zero_sum (n nk : Neighbor) : bool :=
  norm_below_tol (vadd (distance_vector n) (distance_vector nk)).

(** Lines 103-104: [perm = permutations[i]] and
    [bb.connection_point_indices[perm][o]].  A [None] permutation is read
    by numpy as a new axis: position 0 then holds the whole array, which is
    no atom index (the model stops with [TypeError]), and any other
    position is out of range.  Within [build] this arises only for an edge
    one of whose endpoints is itself an edge with a block. *)
Definition matched_atom (permutations : list (option (list nat)))
    (i : nat) (bb : option B) (o : nat) : result nat :=
  perm <- getitem permutations i ;;
  blk <- deref bb ;;
  match perm with
  | None =>
      match o with
      | O => Err TypeError
      | S _ => Err IndexError
      end
  | Some p =>
      picked <- take_indices (connection_point_indices blk) p ;;
      getitem picked o
  end.

(** The loop of lines 98-105 (and 108-115), from position [o] on: the
    result is [None] when the loop ends without binding the atom. *)
Fixpoint scan_neighbors (permutations : list (option (list nat)))
    (i : nat) (bb : option B) (nk : Neighbor)
    (o : nat) (ns : list Neighbor) : result (option nat) :=
  match ns with
  | [] => Ok None
  | n :: rest =>
      if zero_sum n nk then
        a <- matched_atom permutations i bb o ;;
        Ok (Some a)
      else scan_neighbors permutations i bb nk (S o) rest
  end.

Definition find_matched_atom_indices (topology : Topology)
    (located_bbs : list (option B))
    (permutations : list (option (list nat))) (e : nat)
  : result (nat * nat) :=
  ' (n1, n2) <- edge_records topology e ;;
  let i1 := index n1 in
  let i2 := index n2 in
  bb1 <- getitem located_bbs i1 ;;
  bb2 <- getitem located_bbs i2 ;;
  nl1 <- getitem (neighbor_list topology) i1 ;;
  a1 <- scan_neighbors permutations i1 bb1 n1 0 nl1 ;;
  nl2 <- getitem (neighbor_list topology) i2 ;;
  a2 <- scan_neighbors permutations i2 bb2 n2 0 nl2 ;;
  match a1, a2 with
  | Some a1, Some a2 => Ok (a1, a2)
  | _, _ => Err UnboundLocalError
  end.

(** *** Node placement (lines 55-66) *)

Definition place_node (topology : Topology) (node_bb : B)
    (located_bbs : list (option B)) (i : nat) : result (list (option B)) :=
  let target := local_structure topology i in
  ' (located_node, rms) <- locate target node_bb ;;
  center <- getitem (atoms_position topology) i ;;
  setitem located_bbs i (Some (set_center center located_node)).

Fixpoint place_nodes_of_type (topology : Topology) (t : nat) (node_bb : B)
    (indices : list nat) (located_bbs : list (option B))
  : result (list (option B)) :=
  match indices with
  | [] => Ok located_bbs
  | i :: rest =>
      if Z.eqb (Z.of_nat t) (get_node_type topology i) then
        l <- place_node topology node_bb located_bbs i ;;
        place_nodes_of_type topology t node_bb rest l
      else place_nodes_of_type topology t node_bb rest located_bbs
  end.

Fixpoint place_nodes (topology : Topology) (t : nat) (node_bbs : list B)
    (located_bbs : list (option B)) : result (list (option B)) :=
  match node_bbs with
  | [] => Ok located_bbs
  | node_bb :: rest =>
      l <- place_nodes_of_type topology t node_bb
             (node_indices topology) located_bbs ;;
      place_nodes topology (S t) rest l
  end.

(** *** Matching permutations (lines 71-78 and 162-171) *)

Definition match_block (topology : Topology) (blk : B)
    (permutations : list (option (list nat))) (i : nat)
  : result (list (option (list nat))) :=
  let local_topo := local_structure topology i in
  let local_bb := bb_local_structure blk in
  perm <- matching_permutation local_topo local_bb ;;
  setitem permutations i (Some perm).

Fixpoint node_permutations (topology : Topology)
    (located_bbs : list (option B)) (indices : list nat)
    (permutations : list (option (list nat)))
  : result (list (option (list nat))) :=
  match indices with
  | [] => Ok permutations
  | i :: rest =>
      bb <- getitem located_bbs i ;;
      blk <- deref bb ;;
      p <- match_block topology blk permutations i ;;
      node_permutations topology located_bbs rest p
  end.

Fixpoint edge_permutations (topology : Topology)
    (located_bbs : list (option B)) (indices : list nat)
    (permutations : list (option (list nat)))
  : result (list (option (list nat))) :=
  match indices with
  | [] => Ok permutations
  | i :: rest =>
      bb <- getitem located_bbs i ;;
      match bb with
      | None => edge_permutations topology located_bbs rest permutations
      | Some blk =>
          p <- match_block topology blk permutations i ;;
          edge_permutations topology located_bbs rest p
      end
  end.

(** *** Edge placement (lines 120-159) *)

Definition edge_center (c invc : mat3) (r1 r2 : vec) : vec :=
  vadd r1 (vscale (1 # 2)%Q (minimum_image c invc (vsub r2 r1))).

Definition place_edge (topology : Topology) (c invc : mat3) (edge_bb : B)
    (permutations : list (option (list nat)))
    (located_bbs : list (option B)) (e : nat) : result (list (option B)) :=
  ' (n1, n2) <- edge_records topology e ;;
  let i1 := index n1 in
  let i2 := index n2 in
  bb1 <- getitem located_bbs i1 ;;
  bb2 <- getitem located_bbs i2 ;;
  ' (a1, a2) <- find_matched_atom_indices topology located_bbs permutations e ;;
  blk1 <- deref bb1 ;;
  r1 <- getitem (atoms_positions blk1) a1 ;;
  blk2 <- deref bb2 ;;
  r2 <- getitem (atoms_positions blk2) a2 ;;
  let d := minimum_image c invc (vsub r2 r1) in
  let center := vadd r1 (vscale (1 # 2)%Q d) in
  let target := mkLocalStructure [r1; vadd r1 d] [i1; i2] in
  ' (located_edge, rms) <- locate target edge_bb ;;
  setitem located_bbs e (Some (set_center center located_edge)).

Fixpoint place_edges_of_type (topology : Topology) (c invc : mat3)
    (t : EdgeType) (edge_bb : B) (permutations : list (option (list nat)))
    (indices : list nat) (located_bbs : list (option B))
  : result (list (option B)) :=
  match indices with
  | [] => Ok located_bbs
  | e :: rest =>
      if edge_type_eqb t (get_edge_type topology e) then
        l <- place_edge topology c invc edge_bb permutations located_bbs e ;;
        place_edges_of_type topology c invc t edge_bb permutations rest l
      else
        place_edges_of_type topology c invc t edge_bb permutations rest
          located_bbs
  end.

(** The loop over [edge_bbs.items()]. *)
Fixpoint place_edges (topology : Topology) (c invc : mat3)
    (items : list (EdgeType * option B))
    (permutations : list (option (list nat)))
    (located_bbs : list (option B)) : result (list (option B)) :=
  match items with
  | [] => Ok located_bbs
  | (t, None) :: rest =>
      place_edges topology c invc rest permutations located_bbs
  | (t, Some edge_bb) :: rest =>
      l <- place_edges_of_type topology c invc t edge_bb permutations
             (edge_indices topology) located_bbs ;;
      place_edges topology c invc rest permutations l
  end.

(** *** Index offsets (lines 176-182) *)

(** The atoms a point adds to the offset of the next one: [bb.n_atoms], or
    the [0] of line 180. *)
Definition atom_delta (bb : option B) : nat :=
  match bb with
  | None => 0
  | Some b => n_atoms b
  end.

(** [x + offset] where [offset] is an entry of [index_offsets]: an entry
    still [None] cannot be added. *)
Definition add_offset (x : nat) (offset : option nat) : result nat :=
  match offset with
  | Some o => Ok (x + o)
  | None => Err TypeError
  end.

(** The loop of lines 178-182 from position [i] of
    [enumerate(located_bbs[:-1])] on. *)
Fixpoint fill_offsets (i : nat) (bbs : list (option B))
    (index_offsets : list (option nat)) : result (list (option nat)) :=
  match bbs with
  | [] => Ok index_offsets
  | bb :: rest =>
      previous <- getitem index_offsets i ;;
      next <- add_offset (atom_delta bb) previous ;;
      l <- setitem index_offsets (S i) (Some next) ;;
      fill_offsets (S i) rest l
  end.

(** Lines 176-182, with [n] the number of points of the topology. *)
Definition index_offsets (n : nat) (located_bbs : list (option B))
  : result (list (option nat)) :=
  l <- setitem (repeat None n) 0 (Some 0) ;;
  fill_offsets 0 (removelast located_bbs) l.

(** *** Bonds (lines 184-222) *)

(** [bonds + offset] on an array of index pairs. *)
Definition shift_bonds (offset : nat) (bs : list (nat * nat))
  : list (nat * nat) :=
  map (fun ab => (fst ab + offset, snd ab + offset)) bs.

(** The loop over [zip(index_offsets, located_bbs)]. *)
Fixpoint block_bonds (offsets : list (option nat))
    (located_bbs : list (option B)) : result (list (list (nat * nat))) :=
  match offsets, located_bbs with
  | offset :: os, None :: bs => block_bonds os bs
  | offset :: os, Some bb :: bs =>
      match offset with
      | None => Err TypeError
      | Some o =>
          more <- block_bonds os bs ;;
          Ok (shift_bonds o (bonds bb) :: more)
      end
  | _, _ => Ok []
  end.

(** [np.concatenate(arrays, axis=0)] of a Python list of arrays. *)
Definition concatenate {A : Type} (arrays : list (list A))
  : result (list A) :=
  match arrays with
  | [] => Err ValueError
  | _ => Ok (concat arrays)
  end.

(** One turn of the loop of lines 195-217: the bonds appended for edge
    [j].  With a [None] permutation the indexed array has a single row and
    cannot be unpacked into [e1, e2]. *)
Definition connect_edge (topology : Topology)
    (located_bbs : list (option B))
    (permutations : list (option (list nat)))
    (offsets : list (option nat)) (j : nat) : result (list (nat * nat)) :=
  ' (a1, a2) <- find_matched_atom_indices topology located_bbs permutations j ;;
  ' (n1, n2) <- edge_records topology j ;;
  o1 <- getitem offsets (index n1) ;;
  a1 <- add_offset a1 o1 ;;
  o2 <- getitem offsets (index n2) ;;
  a2 <- add_offset a2 o2 ;;
  bbj <- getitem located_bbs j ;;
  match bbj with
  | Some blk =>
      perm <- getitem permutations j ;;
      match perm with
      | None =>
          oj <- getitem offsets j ;;
          shift <- add_offset 0 oj ;;
          Err ValueError
      | Some p =>
          cps <- take_indices (connection_point_indices blk) p ;;
          oj <- getitem offsets j ;;
          match cps with
          | [e1; e2] =>
              e1 <- add_offset e1 oj ;;
              e2 <- add_offset e2 oj ;;
              Ok [(e1, a1); (e2, a2)]
          | _ => shift <- add_offset 0 oj ;; Err ValueError
          end
      end
  | None => Ok [(a1, a2)]
  end.

Fixpoint connect_edges (topology : Topology)
    (located_bbs : list (option B))
    (permutations : list (option (list nat)))
    (offsets : list (option nat)) (indices : list nat)
  : result (list (nat * nat)) :=
  match indices with
  | [] => Ok []
  | j :: rest =>
      bs <- connect_edge topology located_bbs permutations offsets j ;;
      more <- connect_edges topology located_bbs permutations offsets rest ;;
      Ok (bs ++ more)
  end.

(** *** The whole pipeline *)

(** What [build] holds just before it makes the output container. *)
Record BuildState : Type := mkBuildState {
  st_topology : Topology;
  st_located : list (option B);
  st_permutations : list (option (list nat));
  st_offsets : list (option nat);
  st_bb_bonds : list (nat * nat);
  st_bonds : list (nat * nat)
}.

(** [edge_bbs.items()] after [defaultdict(lambda: None, edge_bbs)]. *)
Definition edge_items (edge_bbs : option (list (EdgeType * option B)))
  : list (EdgeType * option B) :=
  match edge_bbs with
  | None => []
  | Some items => items
  end.

(** Lines 21-219. *)
Definition assemble (topology : Topology) (node_bbs : list B)
    (edge_bbs : option (list (EdgeType * option B))) : result BuildState :=
  let items := edge_items edge_bbs in
  if negb (Nat.eqb (n_node_types topology) (length node_bbs)) then
    Err AssertionError
  else
    let topology := scale topology node_bbs items in
    let located_bbs := repeat None (n_all_points topology) in
    located_bbs <- place_nodes topology 0 node_bbs located_bbs ;;
    let permutations := repeat None (n_all_points topology) in
    permutations <- node_permutations topology located_bbs
                      (node_indices topology) permutations ;;
    let c := cell topology in
    invc <- linalg_inv (cell topology) ;;
    located_bbs <- place_edges topology c invc items permutations
                     located_bbs ;;
    permutations <- edge_permutations topology located_bbs
                      (edge_indices topology) permutations ;;
    offsets <- index_offsets (n_all_points topology) located_bbs ;;
    arrays <- block_bonds offsets located_bbs ;;
    bb_bonds <- concatenate arrays ;;
    bonds <- connect_edges topology located_bbs permutations offsets
               (edge_indices topology) ;;
    Ok (mkBuildState topology located_bbs permutations offsets
          bb_bonds bonds).

(** [v.atoms for v in located_bbs if v is not None]. *)
Fixpoint block_atoms (located_bbs : list (option B)) : list (list vec) :=
  match located_bbs with
  | [] => []
  | Some bb :: rest => atoms_positions bb :: block_atoms rest
  | None :: rest => block_atoms rest
  end.

(** Lines 219-232.  [np.array(bonds)] of an empty list has one dimension
    and cannot be concatenated with the two-dimensional [bb_bonds];
    [sum(bb_atoms_list[1:], bb_atoms_list[0])] needs a first block. *)
Definition finish (st : BuildState) : result MOF :=
  all_bonds <- match st_bonds st with
               | [] => Err ValueError
               | bs => Ok (st_bb_bonds st ++ bs)
               end ;;
  mof_atoms <- match block_atoms (st_located st) with
               | [] => Err IndexError
               | first :: others => Ok (fold_left (@app vec) others first)
               end ;;
  Ok (mkMOF mof_atoms true (cell (st_topology st)) all_bonds true).

Definition build (topology : Topology) (node_bbs : list B)
    (edge_bbs : option (list (EdgeType * option B))) (verbose : bool)
  : result MOF :=
  st <- assemble topology node_bbs edge_bbs ;;
  finish st.

End Builder.

(* ------------------------------------------------------------------ *)
(** ** A concrete net: a chain of two nodes and two edges

    Cell 10 x 10 x 10.  Points 0 and 1 are nodes at x = 5/2 and x = 15/2
    (types 0 and 1); points 2 and 3 are the edge centres at x = 5 and
    x = 0 (the second edge crosses the cell boundary).  A block is stored
    as a centre and the offsets of its atoms from that centre. *)

Module Chain.

Record Block : Type := mkBlock {
  blk_center : vec;
  blk_offsets : list vec;
  blk_bonds : list (nat * nat);
  blk_connection : list nat
}.

Definition zero3 : vec := (0, 0, 0)%Q.

#[global] Instance Block_BuildingBlock : BuildingBlock Block := {
  atoms_positions b := map (vadd (blk_center b)) (blk_offsets b);
  bonds := blk_bonds;
  connection_point_indices := blk_connection;
  bb_local_structure b :=
    mkLocalStructure
      (map (fun k => nth k (blk_offsets b) zero3) (blk_connection b))
      (blk_connection b);
  set_center c b :=
    mkBlock c (blk_offsets b) (blk_bonds b) (blk_connection b)
}.

(** The centre of a block of this kind. *)
Definition centroid (b : Block) : vec := blk_center b.

(** A scaler that leaves the topology as it is. *)
Definition scale (t : Topology) (node_bbs : list Block)
    (edge_bbs : list (EdgeType * option Block)) : Topology := t.

(** A locator for templates that are already aligned: it checks the
    cardinalities and returns the template with fit error 0. *)
Definition locate (target : LocalStructure) (bb : Block)
  : result (Block * Q) :=
  if Nat.eqb (length (ls_positions target)) (length (blk_connection bb))
  then Ok (bb, 0%Q)
  else Err ShapeMismatch.

(** A matcher by nearest direction: both point sets are taken relative to
    their means, and slot [k] is sent to the point of the block whose
    offset has the largest scalar product with the slot's offset. *)
Definition mean (ps : list vec) : vec :=
  vscale (/ inject_Z (Z.of_nat (length ps)))%Q (fold_right vadd zero3 ps).

Definition centred (ps : list vec) : list vec :=
  map (fun p => vsub p (mean ps)) ps.

Fixpoint argmax_dot (p : vec) (qs : list vec) (k best : nat) (score : Q)
  : nat :=
  match qs with
  | [] => best
  | q :: rest =>
      if Qltb score (dot p q) then argmax_dot p rest (S k) k (dot p q)
      else argmax_dot p rest (S k) best score
  end.

Definition matching_permutation (slot other : LocalStructure)
  : result (list nat) :=
  let ps := centred (ls_positions slot) in
  let qs := centred (ls_positions other) in
  if Nat.eqb (length ps) (length qs) then
    Ok (map (fun p => argmax_dot p qs 0 0 (-(1))%Q) ps)
  else Err NoMatchFound.

Definition x_axis (x : Q) : vec := (x, 0, 0)%Q.

Definition neighbors : list (list Neighbor) :=
  [ [mkNeighbor 2 (x_axis (5 # 2)); mkNeighbor 3 (x_axis (- (5 # 2)))];
    [mkNeighbor 2 (x_axis (- (5 # 2))); mkNeighbor 3 (x_axis (5 # 2))];
    [mkNeighbor 0 (x_axis (- (5 # 2))); mkNeighbor 1 (x_axis (5 # 2))];
    [mkNeighbor 1 (x_axis (- (5 # 2))); mkNeighbor 0 (x_axis (5 # 2))] ]%Q.

Definition net_of (nl : list (list Neighbor)) : Topology := {|
  n_node_types := 2;
  n_all_points := 4;
  node_indices := [0; 1];
  edge_indices := [2; 3];
  get_node_type := fun i => Z.of_nat i;
  get_edge_type := fun e => (0, 1)%Z;
  neighbor_list := nl;
  local_structure := fun i =>
    mkLocalStructure (map distance_vector (nth i nl []))
                     (map index (nth i nl []));
  atoms_position :=
    [x_axis (5 # 2); x_axis (15 # 2); x_axis 5; x_axis 0]%Q;
  cell := ((10, 0, 0), (0, 10, 0), (0, 0, 10))%Q
|}.

Definition net : Topology := net_of neighbors.

(** The same net with a wrong record at node 0: none of its records is
    the reciprocal of the record edge 2 keeps for node 0. *)
Definition broken_neighbors : list (list Neighbor) :=
  [ [mkNeighbor 2 (x_axis 3); mkNeighbor 3 (x_axis (- (5 # 2)))];
    [mkNeighbor 2 (x_axis (- (5 # 2))); mkNeighbor 3 (x_axis (5 # 2))];
    [mkNeighbor 0 (x_axis (- (5 # 2))); mkNeighbor 1 (x_axis (5 # 2))];
    [mkNeighbor 1 (x_axis (- (5 # 2))); mkNeighbor 0 (x_axis (5 # 2))] ]%Q.

Definition broken_net : Topology := net_of broken_neighbors.

(** Node templates: a central atom bonded to two connection atoms, at
    distance 1 for type 0 and distance 2 for type 1. *)
Definition node_a : Block :=
  mkBlock zero3 [zero3; x_axis 1; x_axis (- (1))]%Q [(0, 1); (0, 2)] [1; 2].
Definition node_b : Block :=
  mkBlock zero3 [zero3; x_axis 2; x_axis (- (2))]%Q [(0, 1); (0, 2)] [1; 2].

(** Edge template: two bonded connection atoms. *)
Definition linker : Block :=
  mkBlock zero3 [x_axis (1 # 2); x_axis (- (1 # 2))]%Q [(0, 1)] [0; 1].

Definition node_bbs : list Block := [node_a; node_b].

Definition with_linkers : option (list (EdgeType * option Block)) :=
  Some [((0, 1)%Z, Some linker)].
Definition reversed_key : option (list (EdgeType * option Block)) :=
  Some [((1, 0)%Z, Some linker)].

(** The located blocks and the permutations after the node phases. *)
Definition placed_nodes : list (option Block) :=
  [ Some (set_center (x_axis (5 # 2)%Q) node_a);
    Some (set_center (x_axis (15 # 2)%Q) node_b); None; None ].
Definition node_perms : list (option (list nat)) :=
  [Some [0; 1]; Some [1; 0]; None; None].

(** Node blocks with arms of length 6, longer than the spacing of the
    nodes, located at the two nodes. *)
Definition wide_nodes : list (option Block) :=
  [ Some (mkBlock (x_axis (5 # 2)%Q)
            [zero3; x_axis 6; x_axis (- (6))]%Q [(0, 1); (0, 2)] [1; 2]);
    Some (mkBlock (x_axis (15 # 2)%Q)
            [zero3; x_axis 6; x_axis (- (6))]%Q [(0, 1); (0, 2)] [1; 2]);
    None; None ].

Definition assemble_chain (edge_bbs : option (list (EdgeType * option Block)))
  : result (BuildState (B := Block)) :=
  assemble scale locate matching_permutation net node_bbs edge_bbs.

Definition build_chain (edge_bbs : option (list (EdgeType * option Block)))
  : result MOF :=
  build scale locate matching_permutation net node_bbs edge_bbs false.

End Chain.

(* ------------------------------------------------------------------ *)
(** ** Vocabulary of the properties *)

(** [arr[perm]] with every index in range is the array reordered by
    [perm]. *)
Definition reordered (arr perm : list nat) : list nat :=
  map (fun k => nth k arr 0) perm.

(** The three components of a vector. *)
Inductive axis : Type := axis_x | axis_y | axis_z.

Definition component (k : axis) (v : vec) : Q :=
  match k with
  | axis_x => vx v
  | axis_y => vy v
  | axis_z => vz v
  end.

(** The half-open interval [-0.5, 0.5). *)
Definition in_half_open (s : Q) : Prop :=
  (- (1 # 2) <= s)%Q /\ (s < 1 # 2)%Q.

(** The offset recorded for point [i] (0 where none is recorded). *)
Definition offset_at (offsets : list (option nat)) (i : nat) : nat :=
  match nth_error offsets i with
  | Some (Some v) => v
  | _ => 0
  end.

(** The number of atoms of all located blocks. *)
Definition total_atoms {B : Type} `{BuildingBlock B}
    (located_bbs : list (option B)) : nat :=
  list_sum (map atom_delta located_bbs).

(** The last block that exists in the list of located blocks. *)
Fixpoint last_existing_block {B : Type} (located_bbs : list (option B))
  : option B :=
  match located_bbs with
  | [] => None
  | bb :: rest =>
      match last_existing_block rest with
      | Some b => Some b
      | None => bb
      end
  end.

(** The intrinsic bonds of all located blocks. *)
Definition intrinsic_bond_count {B : Type} `{BuildingBlock B}
    (located_bbs : list (option B)) : nat :=
  list_sum
    (map (fun bb => match bb with
                    | Some b => length (bonds b)
                    | None => 0
                    end) located_bbs).

(** Point [j] has a located block. *)
Definition has_block {B : Type} (located_bbs : list (option B)) (j : nat)
  : bool :=
  match nth_error located_bbs j with
  | Some (Some _) => true
  | _ => false
  end.

Definition edges_with_block {B : Type} (located_bbs : list (option B))
    (edges : list nat) : nat :=
  length (filter (has_block located_bbs) edges).

Definition edges_without_block {B : Type} (located_bbs : list (option B))
    (edges : list nat) : nat :=
  length (filter (fun j => negb (has_block located_bbs j)) edges).

(** The bonds [bs] that stitch edge [j] into the structure: with [a1], [a2]
    the matched atoms of the two endpoints, shifted by the endpoints'
    offsets, either the edge has a block and [bs] joins the two connection
    atoms of the block, taken in the order of the block's own permutation
    and shifted by the block's offset, to [a1] and [a2]; or it has none and
    [bs] is the single bond between [a1] and [a2]. *)
Definition emitted_for_edge {B : Type} `{BuildingBlock B}
    (topology : Topology) (located_bbs : list (option B))
    (permutations : list (option (list nat)))
    (offsets : list (option nat))
    (j : nat) (bs : list (nat * nat)) : Prop :=
  exists a1 a2 n1 n2 o1 o2,
    find_matched_atom_indices topology located_bbs permutations j
      = Ok (a1, a2) /\
    nth_error (neighbor_list topology) j = Some [n1; n2] /\
    nth_error offsets (index n1) = Some (Some o1) /\
    nth_error offsets (index n2) = Some (Some o2) /\
    match nth_error located_bbs j with
    | Some (Some blk) =>
        exists p e1 e2 oj,
          nth_error permutations j = Some (Some p) /\
          Forall (fun k => k < length (connection_point_indices blk)) p /\
          reordered (connection_point_indices blk) p = [e1; e2] /\
          nth_error offsets j = Some (Some oj) /\
          bs = [(e1 + oj, a1 + o1); (e2 + oj, a2 + o2)]
    | Some None => bs = [(a1 + o1, a2 + o2)]
    | None => False
    end.

(** Two lists agree at every index that is not in [edges]. *)
Definition agree_off {A : Type} (edges : list nat) (l l' : list A) : Prop :=
  forall i, ~ In i edges -> nth_error l i = nth_error l' i.

(** [center] is the middle of the minimum-image segment that starts at the
    matched atom of the first endpoint of edge [e] and ends at the matched
    atom of the second, in the state [located_bbs], [permutations]. *)
Definition edge_midpoint {B : Type} `{BuildingBlock B}
    (topology : Topology) (c invc : mat3) (located_bbs : list (option B))
    (permutations : list (option (list nat))) (e : nat) (center : vec)
  : Prop :=
  exists n1 n2 a1 a2 blk1 blk2 r1 r2,
    nth_error (neighbor_list topology) e = Some [n1; n2] /\
    find_matched_atom_indices topology located_bbs permutations e
      = Ok (a1, a2) /\
    nth_error located_bbs (index n1) = Some (Some blk1) /\
    nth_error located_bbs (index n2) = Some (Some blk2) /\
    nth_error (atoms_positions blk1) a1 = Some r1 /\
    nth_error (atoms_positions blk2) a2 = Some r2 /\
    center = edge_center c invc r1 r2.

(** [o] is the first position of [ns] whose record is the reciprocal of
    [nk] within the tolerance. *)
Definition first_zero_sum (ns : list Neighbor) (nk : Neighbor) (o : nat)
  : Prop :=
  (exists n, nth_error ns o = Some n /\ zero_sum n nk = true) /\
  (forall o' n', o' < o -> nth_error ns o' = Some n' ->
                 zero_sum n' nk = false).

(** No position of [ns] holds a reciprocal of [nk]. *)
Definition no_zero_sum (ns : list Neighbor) (nk : Neighbor) : Prop :=
  forall o n, nth_error ns o = Some n -> zero_sum n nk = false.

(** A bijection over [0, k). *)
Definition valid_permutation (p : list nat) (k : nat) : Prop :=
  length p = k /\ Forall (fun x => x < k) p /\ NoDup p.

Section BuilderVocabulary.

Context {B : Type} `{BuildingBlock B}.
Variable scale : Topology -> list B -> list (EdgeType * option B) -> Topology.
Variable locate : LocalStructure -> B -> result (B * Q).
Variable matching_permutation :
  LocalStructure -> LocalStructure -> result (list nat).

(** Point [i] has neighbour list [ns], a located block [bb] and a valid
    permutation [p] of the block's connection points, one per
    neighbour. *)
Definition endpoint_ready (topology : Topology)
    (located_bbs : list (option B))
    (permutations : list (option (list nat)))
    (i : nat) (ns : list Neighbor) (bb : B) (p : list nat) : Prop :=
  nth_error (neighbor_list topology) i = Some ns /\
  nth_error located_bbs i = Some (Some bb) /\
  nth_error permutations i = Some (Some p) /\
  valid_permutation p (length (connection_point_indices bb)) /\
  length ns = length p.

(** The single bond between the matched atoms of the endpoints of [e]. *)
Definition bonded_directly (topology : Topology)
    (located_bbs : list (option B))
    (permutations : list (option (list nat)))
    (offsets : list (option nat)) (e : nat) : Prop :=
  exists a1 a2 n1 n2 o1 o2,
    find_matched_atom_indices topology located_bbs permutations e
      = Ok (a1, a2) /\
    nth_error (neighbor_list topology) e = Some [n1; n2] /\
    nth_error offsets (index n1) = Some (Some o1) /\
    nth_error offsets (index n2) = Some (Some o2) /\
    connect_edge topology located_bbs permutations offsets e
      = Ok [(a1 + o1, a2 + o2)].

(** Block [blk] was translated to the position of point [i]. *)
Definition centred_at_point (topology : Topology) (i : nat) (blk : B)
  : Prop :=
  exists center located_node,
    nth_error (atoms_position topology) i = Some center /\
    blk = set_center center located_node.

(** Block [blk] was translated to the midpoint of edge [e], computed in a
    state that agrees with [nodes] away from the edges. *)
Definition centred_at_midpoint (topology : Topology) (c invc : mat3)
    (nodes : list (option B)) (permutations : list (option (list nat)))
    (e : nat) (blk : B) : Prop :=
  exists located_at center located_edge,
    agree_off (edge_indices topology) located_at nodes /\
    edge_midpoint topology c invc located_at permutations e center /\
    blk = set_center center located_edge.

(** The facts a successful [assemble] leaves behind, phase by phase:
    [as_nodes] and [as_node_perms] are the located blocks and the
    permutations after the node phases, [as_invc] the inverse cell. *)
Record assembled (topology : Topology) (node_bbs : list B)
    (edge_bbs : option (list (EdgeType * option B)))
    (as_nodes : list (option B))
    (as_node_perms : list (option (list nat))) (as_invc : mat3)
    (st : BuildState) : Prop := mkAssembled {
  as_cardinality : n_node_types topology = length node_bbs;
  as_topology :
    st_topology st = scale topology node_bbs (edge_items edge_bbs);
  as_place_nodes :
    place_nodes locate (st_topology st) 0 node_bbs
      (repeat None (n_all_points (st_topology st))) = Ok as_nodes;
  as_node_permutations :
    node_permutations matching_permutation (st_topology st) as_nodes
      (node_indices (st_topology st))
      (repeat None (n_all_points (st_topology st))) = Ok as_node_perms;
  as_inverse : linalg_inv (cell (st_topology st)) = Ok as_invc;
  as_place_edges :
    place_edges locate (st_topology st) (cell (st_topology st)) as_invc
      (edge_items edge_bbs) as_node_perms as_nodes = Ok (st_located st);
  as_edge_permutations :
    edge_permutations matching_permutation (st_topology st)
      (st_located st) (edge_indices (st_topology st)) as_node_perms
      = Ok (st_permutations st);
  as_offsets :
    index_offsets (n_all_points (st_topology st)) (st_located st)
      = Ok (st_offsets st);
  as_bb_bonds :
    exists arrays,
      block_bonds (st_offsets st) (st_located st) = Ok arrays /\
      concatenate arrays = Ok (st_bb_bonds st);
  as_bonds :
    connect_edges (st_topology st) (st_located st) (st_permutations st)
      (st_offsets st) (edge_indices (st_topology st)) = Ok (st_bonds st)
}.

End BuilderVocabulary.

(** A shift of a fractional component by a whole cell, or none. *)
Definition unit_shift (k : Q) : Prop :=
  (k == - (1))%Q \/ (k == 0)%Q \/ (k == 1)%Q.

(** Every component of [v] lies in the closed interval [-0.5, 0.5]. *)
Definition within_half_cell (v : vec) : Prop :=
  forall k, (- (1 # 2) <= component k v)%Q /\ (component k v <= 1 # 2)%Q.

(** The entries of the mapping that hold a template. *)
Definition templates {B : Type} (items : list (EdgeType * option B))
  : list (EdgeType * option B) :=
  filter (fun item => match snd item with
                      | Some _ => true
                      | None => false
                      end) items.

(** Edge [e] is sound in the state [located_bbs], [permutations]: it keeps
    exactly two neighbour records, both endpoints hold a block and a
    permutation, and each endpoint keeps a record that is the reciprocal of
    the edge's own. *)
Definition edge_sound {B : Type} `{BuildingBlock B}
    (topology : Topology) (located_bbs : list (option B))
    (permutations : list (option (list nat))) (e : nat) : Prop :=
  exists n1 n2 ns1 ns2 blk1 blk2 p1 p2 o1 o2,
    nth_error (neighbor_list topology) e = Some [n1; n2] /\
    nth_error (neighbor_list topology) (index n1) = Some ns1 /\
    nth_error (neighbor_list topology) (index n2) = Some ns2 /\
    nth_error located_bbs (index n1) = Some (Some blk1) /\
    nth_error located_bbs (index n2) = Some (Some blk2) /\
    nth_error permutations (index n1) = Some (Some p1) /\
    nth_error permutations (index n2) = Some (Some p2) /\
    first_zero_sum ns1 n1 o1 /\ first_zero_sum ns2 n2 o2 /\
    o1 < length p1 /\ o2 < length p2.

(** The topology [t] with the cell [c]. *)
Definition with_cell (t : Topology) (c : mat3) : Topology := {|
  n_node_types := n_node_types t;
  n_all_points := n_all_points t;
  node_indices := node_indices t;
  edge_indices := edge_indices t;
  get_node_type := get_node_type t;
  get_edge_type := get_edge_type t;
  neighbor_list := neighbor_list t;
  local_structure := local_structure t;
  atoms_position := atoms_position t;
  cell := c
|}.

(** Block [blk] is what the locator returned for the slot of point [i]
    and the node template of the type of [i], moved to the position of
    [i]. *)
Definition node_placed_from {B : Type} `{BuildingBlock B}
    (locate : LocalStructure -> B -> result (B * Q))
    (topology : Topology) (node_bbs : list B) (i : nat) (blk : B) : Prop :=
  exists t node_bb located_node rms center,
    nth_error node_bbs t = Some node_bb /\
    Z.of_nat t = get_node_type topology i /\
    locate (local_structure topology i) node_bb = Ok (located_node, rms) /\
    nth_error (atoms_position topology) i = Some center /\
    blk = set_center center located_node.

(** [p] is the permutation the matcher gives for the slot of point [i] and
    the block [blk]. *)
Definition permutation_of {B : Type} `{BuildingBlock B}
    (matching_permutation :
       LocalStructure -> LocalStructure -> result (list nat))
    (topology : Topology) (i : nat) (blk : B) (p : list nat) : Prop :=
  matching_permutation (local_structure topology i) (bb_local_structure blk)
  = Ok p.

(** The connection points and the intrinsic bonds of [blk] name atoms of
    [blk]. *)
Definition block_well_formed {B : Type} `{BuildingBlock B} (blk : B) : Prop :=
  Forall (fun a => a < n_atoms blk) (connection_point_indices blk) /\
  Forall (fun ab => fst ab < n_atoms blk /\ snd ab < n_atoms blk)
    (bonds blk).

(** The global atom index [x] falls among the atoms of the block located at
    point [i]. *)
Definition in_block_range {B : Type} `{BuildingBlock B}
    (offsets : list (option nat)) (located_bbs : list (option B))
    (i x : nat) : Prop :=
  exists blk,
    nth_error located_bbs i = Some (Some blk) /\
    offset_at offsets i <= x < offset_at offsets i + n_atoms blk.

(** Both ends of the bond [ab] fall in the range of a located block, and
    so below [n]. *)
Definition bond_in_range {B : Type} `{BuildingBlock B}
    (offsets : list (option nat)) (located_bbs : list (option B))
    (n : nat) (ab : nat * nat) : Prop :=
  (exists i, in_block_range offsets located_bbs i (fst ab)) /\
  (exists j, in_block_range offsets located_bbs j (snd ab)) /\
  fst ab < n /\ snd ab < n.

(** Block [blk] is what the locator returned for a template stored under
    the type of edge [e] and a target of two points, [r1] and [r1 + d],
    labelled with the endpoints of [e]; it is centred midway between the
    two points. *)
Definition edge_placed_from {B : Type} `{BuildingBlock B}
    (locate : LocalStructure -> B -> result (B * Q))
    (topology : Topology) (items : list (EdgeType * option B))
    (e : nat) (blk : B) : Prop :=
  exists edge_bb n1 n2 r1 d located_edge rms,
    In e (edge_indices topology) /\
    In (get_edge_type topology e, Some edge_bb) items /\
    nth_error (neighbor_list topology) e = Some [n1; n2] /\
    locate (mkLocalStructure [r1; vadd r1 d] [index n1; index n2]) edge_bb
    = Ok (located_edge, rms) /\
    blk = set_center (vadd r1 (vscale (1 # 2)%Q d)) located_edge.

(** The topology [t] with one more point, which is neither a node nor an
    edge. *)
Definition with_idle_point (t : Topology) : Topology := {|
  n_node_types := n_node_types t;
  n_all_points := S (n_all_points t);
  node_indices := node_indices t;
  edge_indices := edge_indices t;
  get_node_type := get_node_type t;
  get_edge_type := get_edge_type t;
  neighbor_list := neighbor_list t;
  local_structure := local_structure t;
  atoms_position := atoms_position t;
  cell := cell t
|}.

(* ------------------------------------------------------------------ *)
(** * Properties *)

(** ** The error monad and list primitives *)

Lemma bind_ok {A B : Type} (m : result A) (f : A -> result B) (b : B) :
  bind m f = Ok b -> exists a, m = Ok a /\ f a = Ok b.
Proof.
  destruct m as [a | err]; simpl; intros E; [eauto | discriminate].
Qed.

(** Peels the successful prefix of a chain of binds in hypothesis [H]. *)
Ltac unbind_fresh H :=
  let a := fresh "v" in
  let E := fresh "E" in
  apply bind_ok in H; destruct H as (a & E & H).

Tactic Notation "unbind" hyp(H) := unbind_fresh H.

Tactic Notation "unbind" hyp(H) "as" ident(a) ident(E) :=
  apply bind_ok in H; destruct H as (a & E & H).

Lemma getitem_ok {A : Type} (l : list A) (i : nat) (a : A) :
  getitem l i = Ok a <-> nth_error l i = Some a.
Proof.
  unfold getitem. destruct (nth_error l i); split; intros E;
    inversion E; reflexivity.
Qed.

Lemma getitem_nth {A : Type} (l : list A) (i : nat) (d : A) :
  i < length l -> getitem l i = Ok (nth i l d).
Proof.
  intros Hi. apply getitem_ok. now apply nth_error_nth'.
Qed.

Lemma getitem_in_range {A : Type} (l : list A) (i : nat) (a : A) :
  getitem l i = Ok a -> i < length l.
Proof.
  intros E. apply getitem_ok in E. apply nth_error_Some. congruence.
Qed.

Lemma setitem_length {A : Type} (l l' : list A) (i : nat) (x : A) :
  setitem l i x = Ok l' -> length l' = length l.
Proof.
  revert l' i. induction l as [| a r IH]; intros l' i E.
  - destruct i; discriminate.
  - destruct i as [| j]; simpl in E.
    + inversion E. reflexivity.
    + unbind E. inversion E; subst. simpl. f_equal. eauto.
Qed.

Lemma setitem_same {A : Type} (l l' : list A) (i : nat) (x : A) :
  setitem l i x = Ok l' -> nth_error l' i = Some x.
Proof.
  revert l' i. induction l as [| a r IH]; intros l' i E.
  - destruct i; discriminate.
  - destruct i as [| j]; simpl in E.
    + inversion E. reflexivity.
    + unbind E. inversion E; subst. simpl. eauto.
Qed.

Lemma setitem_other {A : Type} (l l' : list A) (i j : nat) (x : A) :
  setitem l i x = Ok l' -> j <> i -> nth_error l' j = nth_error l j.
Proof.
  revert l' i j. induction l as [| a r IH]; intros l' i j E Hij.
  - destruct i; discriminate.
  - destruct i as [| i]; simpl in E.
    + inversion E; subst. destruct j; [congruence | reflexivity].
    + unbind E. inversion E; subst. destruct j; simpl; [reflexivity |].
      eapply IH; eauto.
Qed.

(** [arr[perm]] with every index in range is the array reordered by
    [perm]. *)
Lemma take_indices_reordered (arr perm : list nat) :
  Forall (fun k => k < length arr) perm ->
  take_indices arr perm = Ok (reordered arr perm).
Proof.
  induction 1 as [| k ks Hk _ IH]; simpl; [reflexivity |].
  rewrite (getitem_nth arr 0 Hk). simpl. rewrite IH. reflexivity.
Qed.

Lemma take_indices_inv (arr perm r : list nat) :
  take_indices arr perm = Ok r ->
  r = reordered arr perm /\ Forall (fun k => k < length arr) perm.
Proof.
  revert r. induction perm as [| k ks IH]; simpl; intros r E.
  - inversion E. split; constructor.
  - unbind E. unbind E. inversion E; subst.
    destruct (IH _ E1) as (-> & HF).
    pose proof (getitem_in_range _ _ E0) as Hk.
    apply getitem_ok in E0.
    split; [| constructor; assumption].
    simpl. f_equal. symmetry. now apply nth_error_nth.
Qed.

(** ** Matching of neighbour records *)

Section Matching.

Context {B : Type} `{BuildingBlock B}.

Lemma scan_neighbors_first permutations i (bb : option B) nk ns :
  forall o k,
    first_zero_sum ns nk k ->
    scan_neighbors permutations i bb nk o ns =
    (a <- matched_atom permutations i bb (o + k) ;; Ok (Some a)).
Proof.
  induction ns as [| n rest IH]; intros o k ((m & Hm & Hz) & Hfirst).
  - destruct k; discriminate.
  - simpl. destruct k as [| k].
    + simpl in Hm. inversion Hm; subst. rewrite Hz.
      now rewrite Nat.add_0_r.
    + rewrite (Hfirst 0 n); [| lia | reflexivity].
      rewrite (IH (S o) k).
      * now rewrite Nat.add_succ_r.
      * split; [exists m; auto |].
        intros o' n' Ho' Hn'. apply (Hfirst (S o') n'); [lia | exact Hn'].
Qed.

Lemma scan_neighbors_none permutations i (bb : option B) nk ns :
  forall o, no_zero_sum ns nk ->
            scan_neighbors permutations i bb nk o ns = Ok None.
Proof.
  induction ns as [| n rest IH]; intros o Hno; simpl; [reflexivity |].
  rewrite (Hno 0 n eq_refl). apply IH.
  intros o' n' Hn'. apply (Hno (S o') n'). exact Hn'.
Qed.

Lemma scan_neighbors_some_inv permutations i (bb : option B) nk ns :
  forall o a,
    scan_neighbors permutations i bb nk o ns = Ok (Some a) ->
    exists k, first_zero_sum ns nk k /\
              matched_atom permutations i bb (o + k) = Ok a.
Proof.
  induction ns as [| n rest IH]; intros o a E; simpl in E;
    [discriminate |].
  destruct (zero_sum n nk) eqn:Hz.
  - unbind E. inversion E; subst. exists 0. rewrite Nat.add_0_r.
    split; [| assumption].
    split; [exists n; auto | intros; lia].
  - destruct (IH _ _ E) as (k & ((m & Hm & Hmz) & Hfirst) & Ha).
    exists (S k). rewrite Nat.add_succ_r. split; [| exact Ha].
    split; [exists m; auto |].
    intros [| o'] n' Ho' Hn'; simpl in Hn'.
    + inversion Hn'; subst. exact Hz.
    + apply (Hfirst o' n'); [lia | exact Hn'].
Qed.

Lemma scan_neighbors_none_inv permutations i (bb : option B) nk ns :
  forall o, scan_neighbors permutations i bb nk o ns = Ok None ->
            no_zero_sum ns nk.
Proof.
  induction ns as [| n rest IH]; intros o E k m Hm.
  - destruct k; discriminate.
  - simpl in E. destruct (zero_sum n nk) eqn:Hz.
    + unbind E. discriminate.
    + destruct k as [| k]; simpl in Hm.
      * inversion Hm; subst. exact Hz.
      * eapply IH; eauto.
Qed.

Lemma matched_atom_ready topology located_bbs permutations i ns bb p o :
  endpoint_ready topology located_bbs permutations i ns bb p ->
  o < length ns ->
  matched_atom permutations i (Some bb) o =
  Ok (nth o (reordered (connection_point_indices bb) p) 0).
Proof.
  intros (_ & _ & Hp & (Hlen & Hrange & _) & Hns) Ho.
  unfold matched_atom. apply getitem_ok in Hp. rewrite Hp. simpl.
  rewrite take_indices_reordered by exact Hrange. simpl.
  apply getitem_nth. unfold reordered. rewrite length_map. lia.
Qed.

(** With a located block and a valid permutation the loop never raises. *)
Lemma scan_neighbors_ready topology located_bbs permutations i ns bb p nk :
  endpoint_ready topology located_bbs permutations i ns bb p ->
  exists r, scan_neighbors permutations i (Some bb) nk 0 ns = Ok r.
Proof.
  intros (_ & _ & Hp & (_ & Hrange & _) & Hlen).
  apply getitem_ok in Hp.
  assert (G : forall rest o, o + length rest <= length p ->
                exists r, scan_neighbors permutations i (Some bb) nk o rest
                          = Ok r).
  { induction rest as [| n rest IH]; intros o Ho; simpl; [eauto |].
    simpl in Ho. destruct (zero_sum n nk); [| apply IH; lia].
    unfold matched_atom. rewrite Hp. simpl.
    rewrite take_indices_reordered by exact Hrange. simpl.
    rewrite (@getitem_nth _ _ o 0); [simpl; eauto |].
    unfold reordered. rewrite length_map. lia. }
  apply G. simpl. lia.
Qed.

End Matching.

(** ** Inversion of the pipeline *)

Section Pipeline.

Context {B : Type} `{BuildingBlock B}.
Variable scale : Topology -> list B -> list (EdgeType * option B) -> Topology.
Variable locate : LocalStructure -> B -> result (B * Q).
Variable matching_permutation :
  LocalStructure -> LocalStructure -> result (list nat).

Lemma edge_records_ok topology e n1 n2 :
  edge_records topology e = Ok (n1, n2) <->
  nth_error (neighbor_list topology) e = Some [n1; n2].
Proof.
  unfold edge_records, getitem.
  destruct (nth_error (neighbor_list topology) e) as [nl |]; simpl.
  - destruct nl as [| a [| b [| c r]]]; split; intros E;
      inversion E; subst; reflexivity.
  - split; discriminate.
Qed.

(** A successful call found, for each endpoint, the first reciprocal
    record and read the matched atom there. *)
Lemma find_matched_atom_indices_inv topology (located_bbs : list (option B))
    permutations e a1 a2 :
  find_matched_atom_indices topology located_bbs permutations e
    = Ok (a1, a2) ->
  exists n1 n2 ns1 ns2 bb1 bb2 k1 k2,
    nth_error (neighbor_list topology) e = Some [n1; n2] /\
    nth_error located_bbs (index n1) = Some bb1 /\
    nth_error located_bbs (index n2) = Some bb2 /\
    nth_error (neighbor_list topology) (index n1) = Some ns1 /\
    nth_error (neighbor_list topology) (index n2) = Some ns2 /\
    first_zero_sum ns1 n1 k1 /\ first_zero_sum ns2 n2 k2 /\
    matched_atom permutations (index n1) bb1 k1 = Ok a1 /\
    matched_atom permutations (index n2) bb2 k2 = Ok a2.
Proof.
  unfold find_matched_atom_indices. intros E.
  unbind E as rec Erec. destruct rec as (n1, n2).
  apply edge_records_ok in Erec. simpl in E.
  unbind E as bb1 Ebb1. unbind E as bb2 Ebb2.
  unbind E as ns1 Ens1. unbind E as r1 Er1.
  unbind E as ns2 Ens2. unbind E as r2 Er2.
  destruct r1 as [x1 |]; [| discriminate].
  destruct r2 as [x2 |]; [| discriminate].
  inversion E; subst.
  apply scan_neighbors_some_inv in Er1. destruct Er1 as (k1 & F1 & M1).
  apply scan_neighbors_some_inv in Er2. destruct Er2 as (k2 & F2 & M2).
  apply getitem_ok in Ebb1, Ebb2, Ens1, Ens2.
  exists n1, n2, ns1, ns2, bb1, bb2, k1, k2. simpl in M1, M2.
  repeat (split; [assumption |]). assumption.
Qed.

Lemma connect_edges_each topology (located_bbs : list (option B))
    permutations offsets indices bonds :
  connect_edges topology located_bbs permutations offsets indices
    = Ok bonds ->
  forall j, In j indices ->
    exists bs, connect_edge topology located_bbs permutations offsets j
               = Ok bs.
Proof.
  revert bonds. induction indices as [| i rest IH]; intros bonds E j Hj.
  - destruct Hj.
  - simpl in E. unbind E. unbind E. destruct Hj as [-> | Hj]; eauto.
Qed.

Lemma connect_edge_matched topology (located_bbs : list (option B))
    permutations offsets j bs :
  connect_edge topology located_bbs permutations offsets j = Ok bs ->
  exists a1 a2,
    find_matched_atom_indices topology located_bbs permutations j
      = Ok (a1, a2).
Proof.
  unfold connect_edge. intros E. unbind E. destruct v as (a1, a2). eauto.
Qed.

Lemma assemble_inv topology node_bbs edge_bbs st :
  assemble scale locate matching_permutation topology node_bbs edge_bbs
    = Ok st ->
  exists nodes node_perms invc,
    assembled scale locate matching_permutation topology node_bbs edge_bbs
      nodes node_perms invc st.
Proof.
  unfold assemble. intros E.
  destruct (Nat.eqb (n_node_types topology) (length node_bbs)) eqn:Hn;
    simpl in E; [| discriminate].
  apply Nat.eqb_eq in Hn.
  unbind E as nodes Enodes. unbind E as node_perms Eperms.
  unbind E as invc Einv. unbind E as located Elocated.
  unbind E as perms Eperms'. unbind E as offsets Eoffsets.
  unbind E as arrays Earrays. unbind E as bb_bonds Ebb.
  unbind E as bonds Ebonds. inversion E; subst; clear E.
  exists nodes, node_perms, invc. constructor; simpl; eauto.
Qed.

Lemma build_inv topology node_bbs edge_bbs verbose mof :
  build scale locate matching_permutation topology node_bbs edge_bbs
    verbose = Ok mof ->
  exists st,
    assemble scale locate matching_permutation topology node_bbs edge_bbs
      = Ok st /\
    finish st = Ok mof.
Proof.
  unfold build. intros E. unbind E. eauto.
Qed.

End Pipeline.

(* ------------------------------------------------------------------ *)
(** ** Matched atoms of an edge *)

(** C1.  For an edge [e] with records [n1], [n2] whose endpoints both have
    a located block and a valid permutation, [find_matched_atom_indices e]
    returns, for each endpoint, the entry at position [o] of the block's
    [connection_point_indices] reordered by the endpoint's permutation,
    where [o] is the (first) position of the endpoint's neighbour list
    whose distance vector plus the edge's own distance vector for that
    endpoint has norm below 1e-3. *)
Theorem find_matched_atom_indices_selects
    {B : Type} `{BuildingBlock B}
    (topology : Topology) (located_bbs : list (option B))
    (permutations : list (option (list nat))) (e : nat)
    (n1 n2 : Neighbor) (ns1 ns2 : list Neighbor) (bb1 bb2 : B)
    (p1 p2 : list nat) (o1 o2 : nat) :
  nth_error (neighbor_list topology) e = Some [n1; n2] ->
  endpoint_ready topology located_bbs permutations (index n1) ns1 bb1 p1 ->
  endpoint_ready topology located_bbs permutations (index n2) ns2 bb2 p2 ->
  first_zero_sum ns1 n1 o1 ->
  first_zero_sum ns2 n2 o2 ->
  find_matched_atom_indices topology located_bbs permutations e =
  Ok (nth o1 (reordered (connection_point_indices bb1) p1) 0,
      nth o2 (reordered (connection_point_indices bb2) p2) 0).
Proof.
  intros He R1 R2 F1 F2.
  assert (Ho1 : o1 < length ns1).
  { destruct F1 as ((n & Hn & _) & _). apply nth_error_Some. congruence. }
  assert (Ho2 : o2 < length ns2).
  { destruct F2 as ((n & Hn & _) & _). apply nth_error_Some. congruence. }
  pose proof (matched_atom_ready R1 Ho1) as M1.
  pose proof (matched_atom_ready R2 Ho2) as M2.
  destruct R1 as (Hns1 & Hbb1 & _). destruct R2 as (Hns2 & Hbb2 & _).
  unfold find_matched_atom_indices.
  apply edge_records_ok in He. rewrite He. simpl.
  apply getitem_ok in Hbb1, Hbb2, Hns1, Hns2.
  rewrite Hbb1, Hbb2. simpl. rewrite Hns1. simpl.
  rewrite (scan_neighbors_first _ _ _ 0 F1). simpl. rewrite M1. simpl.
  rewrite Hns2. simpl.
  rewrite (scan_neighbors_first _ _ _ 0 F2). simpl. rewrite M2. simpl.
  reflexivity.
Qed.

Lemma find_matched_atom_indices_selects_chain :
  find_matched_atom_indices Chain.net Chain.placed_nodes Chain.node_perms 2
  = Ok (1, 2).
Proof.
  refine (@find_matched_atom_indices_selects _ _
           Chain.net Chain.placed_nodes Chain.node_perms 2
           (mkNeighbor 0 (Chain.x_axis (- (5 # 2))%Q))
           (mkNeighbor 1 (Chain.x_axis (5 # 2)%Q))
           (nth 0 Chain.neighbors []) (nth 1 Chain.neighbors [])
           (Chain.mkBlock (Chain.x_axis (5 # 2)%Q)
              (Chain.blk_offsets Chain.node_a) [(0, 1); (0, 2)] [1; 2])
           (Chain.mkBlock (Chain.x_axis (15 # 2)%Q)
              (Chain.blk_offsets Chain.node_b) [(0, 1); (0, 2)] [1; 2])
           [0; 1] [1; 0] 0 0 _ _ _ _ _).
  - reflexivity.
  - repeat split; try reflexivity.
    + repeat constructor.
    + repeat constructor; simpl; intuition discriminate.
  - repeat split; try reflexivity.
    + repeat constructor.
    + repeat constructor; simpl; intuition discriminate.
  - split.
    + eexists. split; reflexivity.
    + intros o' n' Ho'. inversion Ho'.
  - split.
    + eexists. split; reflexivity.
    + intros o' n' Ho'. inversion Ho'.
Defined.

Lemma first_zero_sum_excludes_none ns nk k :
  first_zero_sum ns nk k -> no_zero_sum ns nk -> False.
Proof.
  intros ((n & Hn & Hz) & _) Hno. rewrite (Hno k n Hn) in Hz. discriminate.
Qed.

(** C6.  Let [e] be an edge of the scaled topology with records [n1], [n2]
    and let one endpoint have no neighbour record whose distance vector
    plus the edge's own has norm below 1e-3.  Then
    [find_matched_atom_indices e] never returns; with located blocks and
    valid permutations at both endpoints it stops on the atom that was
    never bound ([UnboundLocalError] at [return a1, a2], the failure of a
    missing neighbour record); and [build] returns an error, not a
    structure. *)
Theorem missing_neighbor_record_aborts
    {B : Type} `{BuildingBlock B}
    (scale : Topology -> list B -> list (EdgeType * option B) -> Topology)
    (locate : LocalStructure -> B -> result (B * Q))
    (matching_permutation :
       LocalStructure -> LocalStructure -> result (list nat))
    (topology : Topology) (node_bbs : list B)
    (edge_bbs : option (list (EdgeType * option B))) (verbose : bool)
    (e : nat) (n1 n2 : Neighbor) (ns1 ns2 : list Neighbor) :
  let scaled := scale topology node_bbs (edge_items edge_bbs) in
  In e (edge_indices scaled) ->
  nth_error (neighbor_list scaled) e = Some [n1; n2] ->
  nth_error (neighbor_list scaled) (index n1) = Some ns1 ->
  nth_error (neighbor_list scaled) (index n2) = Some ns2 ->
  no_zero_sum ns1 n1 \/ no_zero_sum ns2 n2 ->
  (forall located_bbs permutations,
      is_ok (find_matched_atom_indices scaled located_bbs permutations e)
      = false) /\
  (forall located_bbs permutations bb1 bb2 p1 p2,
      endpoint_ready scaled located_bbs permutations (index n1) ns1 bb1 p1 ->
      endpoint_ready scaled located_bbs permutations (index n2) ns2 bb2 p2 ->
      find_matched_atom_indices scaled located_bbs permutations e
      = Err UnboundLocalError) /\
  (exists err,
      build scale locate matching_permutation topology node_bbs edge_bbs
        verbose = Err err).
Proof.
  intros scaled Hin He Hns1 Hns2 Hmiss.
  assert (Hnever : forall located_bbs permutations a1 a2,
             find_matched_atom_indices scaled located_bbs permutations e
             <> Ok (a1, a2)).
  { intros located_bbs permutations a1 a2 E.
    apply find_matched_atom_indices_inv in E.
    destruct E as (m1 & m2 & l1 & l2 & b1 & b2 & k1 & k2 & He' & _ & _
                   & Hl1 & Hl2 & F1 & F2 & _).
    rewrite He in He'. inversion He'; subst m1 m2.
    rewrite Hns1 in Hl1. rewrite Hns2 in Hl2.
    inversion Hl1; inversion Hl2; subst l1 l2.
    destruct Hmiss as [Hno | Hno];
      eauto using first_zero_sum_excludes_none. }
  split; [| split].
  - intros located_bbs permutations.
    destruct (find_matched_atom_indices scaled located_bbs permutations e)
      as [(a1, a2) |] eqn:E; [| reflexivity].
    exfalso. eapply Hnever; eauto.
  - intros located_bbs permutations bb1 bb2 p1 p2 R1 R2.
    unfold find_matched_atom_indices.
    apply edge_records_ok in He. rewrite He. simpl.
    destruct (scan_neighbors_ready n1 R1) as (r1 & E1).
    destruct (scan_neighbors_ready n2 R2) as (r2 & E2).
    destruct R1 as (_ & Hbb1 & _). destruct R2 as (_ & Hbb2 & _).
    apply getitem_ok in Hbb1, Hbb2, Hns1, Hns2.
    rewrite Hbb1, Hbb2. simpl. rewrite Hns1. simpl. rewrite E1. simpl.
    rewrite Hns2. simpl. rewrite E2. simpl.
    destruct Hmiss as [Hno | Hno].
    + rewrite (scan_neighbors_none _ _ _ _ Hno) in E1.
      inversion E1; subst. reflexivity.
    + rewrite (scan_neighbors_none _ _ _ _ Hno) in E2.
      inversion E2; subst. destruct r1; reflexivity.
  - destruct (build scale locate matching_permutation topology node_bbs
                edge_bbs verbose) as [mof | err] eqn:E; [| eauto].
    exfalso. apply build_inv in E. destruct E as (st & Est & _).
    apply assemble_inv in Est. destruct Est as (nodes & perms & invc & A).
    pose proof (as_bonds A) as Hb. rewrite (as_topology A) in Hb.
    fold scaled in Hb.
    destruct (connect_edges_each _ _ _ _ _ Hb e Hin) as (bs & Hbs).
    apply connect_edge_matched in Hbs. destruct Hbs as (a1 & a2 & Hm).
    eapply Hnever; eauto.
Qed.

Lemma missing_neighbor_record_aborts_chain :
  exists err,
    build Chain.scale Chain.locate Chain.matching_permutation
      Chain.broken_net Chain.node_bbs None false = Err err.
Proof.
  refine (proj2 (proj2
    (@missing_neighbor_record_aborts _ _
       Chain.scale Chain.locate Chain.matching_permutation
       Chain.broken_net Chain.node_bbs None false 2
       (mkNeighbor 0 (Chain.x_axis (- (5 # 2))%Q))
       (mkNeighbor 1 (Chain.x_axis (5 # 2)%Q))
       (nth 0 Chain.broken_neighbors []) (nth 1 Chain.broken_neighbors [])
       _ _ _ _ _))).
  - simpl. auto.
  - reflexivity.
  - reflexivity.
  - reflexivity.
  - left. intros o n Hn.
    destruct o as [| [| o]]; simpl in Hn;
      [inversion Hn; reflexivity | inversion Hn; reflexivity |].
    destruct o; discriminate.
Defined.

(** On the broken net the build stops exactly there. *)
Example build_broken_chain :
  build Chain.scale Chain.locate Chain.matching_permutation
    Chain.broken_net Chain.node_bbs None false = Err UnboundLocalError.
Proof. vm_compute. reflexivity. Qed.

(* ------------------------------------------------------------------ *)
(** ** Input check and output container *)

(** C8.  When the number of supplied node templates differs from
    [topology.n_node_types], [build] fails on the [assert] of line 31 (the
    cardinality error of the inputs), whatever the scaler, the locator and
    the matcher would do: nothing is scaled or placed, and no structure is
    returned. *)
Theorem node_template_count_checked
    {B : Type} `{BuildingBlock B}
    (scale : Topology -> list B -> list (EdgeType * option B) -> Topology)
    (locate : LocalStructure -> B -> result (B * Q))
    (matching_permutation :
       LocalStructure -> LocalStructure -> result (list nat))
    (topology : Topology) (node_bbs : list B)
    (edge_bbs : option (list (EdgeType * option B))) (verbose : bool) :
  length node_bbs <> n_node_types topology ->
  build scale locate matching_permutation topology node_bbs edge_bbs verbose
  = Err AssertionError.
Proof.
  intros Hne. unfold build, assemble.
  destruct (Nat.eqb_spec (n_node_types topology) (length node_bbs)) as [E | _];
    [congruence | reflexivity].
Qed.

Lemma node_template_count_checked_chain :
  build Chain.scale Chain.locate Chain.matching_permutation
    Chain.net [Chain.node_a] Chain.with_linkers false = Err AssertionError.
Proof.
  apply node_template_count_checked. simpl. lia.
Defined.

(** C10.  Every structure returned by [build] was handed to the output
    container with the wrap flag set; no argument of [build] (topology,
    templates, [verbose]) changes that. *)
Theorem build_always_wraps
    {B : Type} `{BuildingBlock B}
    (scale : Topology -> list B -> list (EdgeType * option B) -> Topology)
    (locate : LocalStructure -> B -> result (B * Q))
    (matching_permutation :
       LocalStructure -> LocalStructure -> result (list nat))
    (topology : Topology) (node_bbs : list B)
    (edge_bbs : option (list (EdgeType * option B))) (verbose : bool)
    (mof : MOF) :
  build scale locate matching_permutation topology node_bbs edge_bbs verbose
  = Ok mof ->
  mof_wrap mof = true.
Proof.
  intros E. apply build_inv in E. destruct E as (st & _ & E).
  unfold finish in E. unbind E as all_bonds Eb. unbind E as atoms Ea.
  inversion E. reflexivity.
Qed.

Lemma build_always_wraps_chain :
  exists mof,
    Chain.build_chain Chain.with_linkers = Ok mof /\ mof_wrap mof = true.
Proof.
  eexists. split.
  - vm_compute. reflexivity.
  - eapply (build_always_wraps Chain.scale Chain.locate
              Chain.matching_permutation Chain.net Chain.node_bbs
              Chain.with_linkers false).
    vm_compute. reflexivity.
Defined.

(* ------------------------------------------------------------------ *)
(** ** Minimum image of a displacement *)

Lemma Qltb_lt (x y : Q) : Qltb x y = true <-> (x < y)%Q.
Proof.
  unfold Qltb. rewrite negb_true_iff. split.
  - intros E. apply Qnot_le_lt. intros Hle.
    apply Qle_bool_iff in Hle. congruence.
  - intros Hlt. destruct (Qle_bool y x) eqn:E; [| reflexivity].
    apply Qle_bool_iff in E. exfalso. eapply Qlt_not_le; eauto.
Qed.

Lemma Qltb_ge (x y : Q) : Qltb x y = false <-> (y <= x)%Q.
Proof.
  unfold Qltb. rewrite negb_false_iff. apply Qle_bool_iff.
Qed.

Lemma component_vmap (f : Q -> Q) (k : axis) (v : vec) :
  component k (vmap f v) = f (component k v).
Proof. destruct k; reflexivity. Qed.

(** The two [np.where] lines shift a component by at most one cell. *)
Lemma wrap_component_cases (s : Q) :
  ((1 # 2 < s)%Q /\ wrap_component s = (s - 1)%Q) \/
  ((s < - (1 # 2))%Q /\ wrap_component s = (s + 1)%Q) \/
  ((- (1 # 2) <= s)%Q /\ (s <= 1 # 2)%Q /\ wrap_component s = s).
Proof.
  unfold wrap_component, where_gt_half.
  destruct (Qltb (1 # 2) s) eqn:Hhi.
  - left. apply Qltb_lt in Hhi. split; [exact Hhi |].
    unfold where_lt_mhalf.
    destruct (Qltb (s - 1) (- (1 # 2))) eqn:Hlo; [| reflexivity].
    apply Qltb_lt in Hlo. lra.
  - right. apply Qltb_ge in Hhi. unfold where_lt_mhalf.
    destruct (Qltb s (- (1 # 2))) eqn:Hlo.
    + left. apply Qltb_lt in Hlo. auto.
    + right. apply Qltb_ge in Hlo. auto.
Qed.

(** C3 (as the code has it).  For a displacement [d] of the edge placement,
    a fractional component [s] of [d @ invc] whose magnitude exceeds 0.5
    lies in [-0.5, 0.5) after the wrapping step provided [s] is within one
    and a half cells, [-1.5 <= s < 1.5]: the step shifts by one cell, once. *)
Theorem wrapped_fractional_within_half
    (invc : mat3) (d : vec) (k : axis) :
  let s := component k (fractional invc d) in
  (1 # 2 < Qabs s)%Q ->
  (- (3 # 2) <= s)%Q ->
  (s < 3 # 2)%Q ->
  in_half_open (component k (wrapped_fractional invc d)).
Proof.
  intros s Habs Hlo Hhi. unfold wrapped_fractional.
  rewrite component_vmap. fold s. unfold in_half_open.
  destruct (wrap_component_cases s) as [(H1 & ->) | [(H1 & ->) | (H1 & H2 & _)]].
  - lra.
  - lra.
  - exfalso. revert Habs. apply Qabs_case; intros; lra.
Qed.

Lemma wrapped_fractional_within_half_chain :
  in_half_open
    (component axis_x
       (wrapped_fractional
          ((1 # 10, 0, 0), (0, 1 # 10, 0), (0, 0, 1 # 10))%Q
          (- (8), 0, 0)%Q)).
Proof.
  apply wrapped_fractional_within_half; vm_compute; congruence.
Defined.

(** A displacement of two cell lengths along x keeps a fractional
    component of magnitude 1 after the wrapping step. *)
Lemma wrapped_fractional_outside_half :
  exists invc,
    linalg_inv (cell Chain.net) = Ok invc /\
    (1 # 2 < Qabs (component axis_x (fractional invc (20, 0, 0)%Q)))%Q /\
    (component axis_x (wrapped_fractional invc (20, 0, 0)%Q) == 1)%Q /\
    ~ in_half_open (component axis_x (wrapped_fractional invc (20, 0, 0)%Q)).
Proof.
  eexists. split; [vm_compute; reflexivity |].
  split; [vm_compute; reflexivity |].
  split; [vm_compute; reflexivity |].
  intros (_ & Hhi). vm_compute in Hhi. discriminate.
Qed.

(** Such a displacement arises in the placement of edge 3 of the chain
    when the node blocks have arms of length 6: the matched atoms are at
    x = 27/2 and x = -7/2, the raw fractional component is -17/10 and the
    wrapped one -7/10. *)
Example wide_arms_displacement :
  exists invc r1 r2,
    linalg_inv (cell Chain.net) = Ok invc /\
    find_matched_atom_indices Chain.net Chain.wide_nodes Chain.node_perms 3
      = Ok (1, 2) /\
    getitem (atoms_positions
               (B := Chain.Block)
               (Chain.mkBlock (Chain.x_axis (15 # 2)%Q)
                  [Chain.zero3; Chain.x_axis 6; Chain.x_axis (- (6))]%Q
                  [(0, 1); (0, 2)] [1; 2])) 1 = Ok r1 /\
    getitem (atoms_positions
               (B := Chain.Block)
               (Chain.mkBlock (Chain.x_axis (5 # 2)%Q)
                  [Chain.zero3; Chain.x_axis 6; Chain.x_axis (- (6))]%Q
                  [(0, 1); (0, 2)] [1; 2])) 2 = Ok r2 /\
    (component axis_x (fractional invc (vsub r2 r1)) == - (17 # 10))%Q /\
    (component axis_x (wrapped_fractional invc (vsub r2 r1))
     == - (7 # 10))%Q.
Proof.
  do 3 eexists.
  split; [vm_compute; reflexivity |].
  split; [vm_compute; reflexivity |].
  split; [vm_compute; reflexivity |].
  split; [vm_compute; reflexivity |].
  split; vm_compute; reflexivity.
Qed.

(* ------------------------------------------------------------------ *)
(** ** Index offsets *)

Section Offsets.

Context {B : Type} `{BuildingBlock B}.

Lemma prefix_sum_step (l : list (option B)) :
  forall i, i < length l ->
    list_sum (map atom_delta (firstn (S i) l)) =
    list_sum (map atom_delta (firstn i l)) + atom_delta (nth i l None).
Proof.
  induction l as [| bb rest IH]; intros i Hi; simpl in Hi; [lia |].
  destruct i as [| i].
  - simpl. lia.
  - rewrite !firstn_cons. rewrite !map_cons.
    change (nth (S i) (bb :: rest) None) with (nth i rest None).
    specialize (IH i ltac:(lia)). simpl list_sum in *. lia.
Qed.

(** The invariant of the loop of lines 178-182: entries up to [i] are
    kept, and the entry [k + 1] places further on is the entry at [i] plus
    the atoms of the first [k + 1] blocks of the loop. *)
Lemma fill_offsets_spec (bbs : list (option B)) :
  forall i offsets offsets' acc,
    nth_error offsets i = Some (Some acc) ->
    fill_offsets i bbs offsets = Ok offsets' ->
    length offsets' = length offsets /\
    (forall k, k <= i -> nth_error offsets' k = nth_error offsets k) /\
    (forall k, k < length bbs ->
       nth_error offsets' (i + S k) =
       Some (Some (acc + list_sum (map atom_delta (firstn (S k) bbs))))).
Proof.
  induction bbs as [| bb rest IH]; intros i offsets offsets' acc Hi E;
    simpl in E.
  - inversion E; subst. repeat split; auto.
    intros k Hk. simpl in Hk. lia.
  - unbind E as previous Eprev. apply getitem_ok in Eprev.
    rewrite Hi in Eprev. inversion Eprev; subst previous.
    unbind E as next Enext. simpl in Enext. inversion Enext; subst next.
    unbind E as l El.
    destruct (IH (S i) l offsets' (atom_delta bb + acc)
                (setitem_same _ _ _ El) E) as (Hlen & Hkeep & Hsum).
    split; [rewrite Hlen; eapply setitem_length; eauto |].
    split.
    + intros k Hk. rewrite Hkeep by lia.
      eapply setitem_other; [exact El | lia].
    + intros [| k] Hk.
      * rewrite Nat.add_1_r, Hkeep by lia.
        rewrite (setitem_same _ _ _ El). simpl. do 2 f_equal. lia.
      * replace (i + S (S k)) with (S i + S k) by lia.
        simpl in Hk. rewrite Hsum by lia.
        rewrite (firstn_cons (S k) bb rest), map_cons.
        simpl list_sum. do 2 f_equal. lia.
Qed.

(** Every offset is the number of atoms of the blocks before its point. *)
Lemma index_offsets_prefix n (located_bbs : list (option B)) offsets :
  index_offsets n located_bbs = Ok offsets ->
  length located_bbs = n ->
  0 < n /\
  length offsets = n /\
  forall i, i < n ->
    nth_error offsets i =
    Some (Some (list_sum (map atom_delta (firstn i located_bbs)))).
Proof.
  unfold index_offsets. intros E Hn. unbind E as l El.
  assert (Hpos : 0 < n).
  { destruct n; [discriminate | lia]. }
  assert (Hlen : length (removelast located_bbs) = n - 1).
  { rewrite removelast_firstn_len, length_firstn. lia. }
  destruct (fill_offsets_spec _ _ _ (setitem_same _ _ _ El) E)
    as (Hl & Hkeep & Hsum).
  split; [exact Hpos |]. split.
  - rewrite Hl, (setitem_length _ _ _ El). apply repeat_length.
  - intros [| i] Hi.
    + rewrite Hkeep by lia. apply (setitem_same _ _ _ El).
    + change (S i) with (0 + S i). rewrite Hsum by lia.
      rewrite firstn_removelast by lia. reflexivity.
Qed.

Lemma offset_at_prefix n (located_bbs : list (option B)) offsets i :
  index_offsets n located_bbs = Ok offsets ->
  length located_bbs = n ->
  i < n ->
  offset_at offsets i = list_sum (map atom_delta (firstn i located_bbs)).
Proof.
  intros E Hn Hi. destruct (index_offsets_prefix _ E Hn) as (_ & _ & Hpre).
  unfold offset_at. now rewrite Hpre.
Qed.

Lemma last_nth {A : Type} (l : list A) (d : A) :
  last l d = nth (length l - 1) l d.
Proof.
  induction l as [| a [| b r] IH]; try reflexivity.
  change (last (a :: b :: r) d) with (last (b :: r) d). rewrite IH.
  simpl. now rewrite Nat.sub_0_r.
Qed.

Lemma total_atoms_last (located_bbs : list (option B)) :
  0 < length located_bbs ->
  total_atoms located_bbs =
  list_sum (map atom_delta (firstn (length located_bbs - 1) located_bbs))
  + atom_delta (last located_bbs None).
Proof.
  intros Hpos. unfold total_atoms.
  rewrite <- (firstn_all located_bbs) at 1.
  replace (length located_bbs) with (S (length located_bbs - 1)) at 1 by lia.
  rewrite prefix_sum_step by lia. now rewrite last_nth.
Qed.

Lemma block_atoms_total (located_bbs : list (option B)) :
  list_sum (map (@length vec) (block_atoms located_bbs))
  = total_atoms located_bbs.
Proof.
  unfold total_atoms.
  induction located_bbs as [| [b |] rest IH]; simpl; auto.
Qed.

Lemma fold_left_app_length {A : Type} (ls : list (list A)) :
  forall acc, length (fold_left (@app A) ls acc)
              = length acc + list_sum (map (@length A) ls).
Proof.
  induction ls as [| l rest IH]; intros acc; simpl; [lia |].
  rewrite IH, length_app. lia.
Qed.

(** The assembled atoms are those of all located blocks. *)
Lemma finish_atom_count (st : BuildState) mof :
  finish st = Ok mof ->
  length (mof_positions mof) = total_atoms (st_located st).
Proof.
  unfold finish. intros E. unbind E as all_bonds Eb. unbind E as atoms Ea.
  inversion E; subst; clear E. simpl.
  rewrite <- block_atoms_total.
  destruct (block_atoms (st_located st)) as [| first others];
    [discriminate |].
  inversion Ea; subst. rewrite fold_left_app_length. reflexivity.
Qed.

Lemma finish_bonds (st : BuildState) mof :
  finish st = Ok mof ->
  mof_bonds mof = st_bb_bonds st ++ st_bonds st.
Proof.
  unfold finish. intros E. unbind E as all_bonds Eb. unbind E as atoms Ea.
  inversion E; subst; clear E. simpl.
  destruct (st_bonds st); [discriminate | inversion Eb; reflexivity].
Qed.

End Offsets.

(* ------------------------------------------------------------------ *)
(** ** Placement loops *)

Section Placement.

Context {B : Type} `{BuildingBlock B}.
Variable locate : LocalStructure -> B -> result (B * Q).

(** What one node placement does. *)
Lemma place_node_inv topology node_bb (located_bbs : list (option B)) i l :
  place_node locate topology node_bb located_bbs i = Ok l ->
  exists located_node rms center,
    locate (local_structure topology i) node_bb = Ok (located_node, rms) /\
    nth_error (atoms_position topology) i = Some center /\
    setitem located_bbs i (Some (set_center center located_node)) = Ok l.
Proof.
  unfold place_node. intros E.
  unbind E as r Er. destruct r as (located_node, rms). simpl in E.
  unbind E as center Ec. apply getitem_ok in Ec.
  exists located_node, rms, center. auto.
Qed.

(** What one edge placement does. *)
Lemma place_edge_inv topology c invc edge_bb permutations
    (located_bbs : list (option B)) e l :
  place_edge locate topology c invc edge_bb permutations located_bbs e
    = Ok l ->
  exists n1 n2 a1 a2 blk1 blk2 r1 r2 located_edge rms,
    nth_error (neighbor_list topology) e = Some [n1; n2] /\
    find_matched_atom_indices topology located_bbs permutations e
      = Ok (a1, a2) /\
    nth_error located_bbs (index n1) = Some (Some blk1) /\
    nth_error located_bbs (index n2) = Some (Some blk2) /\
    nth_error (atoms_positions blk1) a1 = Some r1 /\
    nth_error (atoms_positions blk2) a2 = Some r2 /\
    locate (mkLocalStructure
              [r1; vadd r1 (minimum_image c invc (vsub r2 r1))]
              [index n1; index n2]) edge_bb = Ok (located_edge, rms) /\
    setitem located_bbs e
      (Some (set_center (edge_center c invc r1 r2) located_edge)) = Ok l.
Proof.
  unfold place_edge. intros E.
  unbind E as rec Erec. destruct rec as (n1, n2).
  apply edge_records_ok in Erec. simpl in E.
  unbind E as bb1 Ebb1. unbind E as bb2 Ebb2.
  unbind E as found Efound. destruct found as (a1, a2). simpl in E.
  unbind E as blk1 Eblk1. unbind E as r1 Er1.
  unbind E as blk2 Eblk2. unbind E as r2 Er2.
  unbind E as placed Eplaced. destruct placed as (located_edge, rms).
  simpl in E.
  destruct bb1 as [b1 |]; [| discriminate].
  destruct bb2 as [b2 |]; [| discriminate].
  inversion Eblk1; inversion Eblk2; subst.
  apply getitem_ok in Ebb1, Ebb2, Er1, Er2.
  exists n1, n2, a1, a2, blk1, blk2, r1, r2, located_edge, rms.
  repeat (split; [assumption |]). exact E.
Qed.

(** Induction over the node placements of one type. *)
Lemma place_nodes_of_type_ind (P : list (option B) -> Prop)
    topology t node_bb indices :
  (forall l i l', In i indices -> P l ->
     place_node locate topology node_bb l i = Ok l' -> P l') ->
  forall l l',
    place_nodes_of_type locate topology t node_bb indices l = Ok l' ->
    P l -> P l'.
Proof.
  induction indices as [| i rest IH]; intros Hstep l l' E HP; simpl in E.
  - inversion E; subst. exact HP.
  - assert (Hrest : forall l0 i0 l0', In i0 rest -> P l0 ->
              place_node locate topology node_bb l0 i0 = Ok l0' -> P l0').
    { intros l0 i0 l0' Hi0. apply Hstep. now right. }
    destruct (Z.eqb (Z.of_nat t) (get_node_type topology i)).
    + unbind E as l1 E1. apply (IH Hrest l1 l' E).
      apply (Hstep l i l1); [now left | exact HP | exact E1].
    + apply (IH Hrest l l' E HP).
Qed.

(** Induction over all node placements. *)
Lemma place_nodes_ind (P : list (option B) -> Prop) topology node_bbs :
  (forall node_bb l i l', In node_bb node_bbs ->
     In i (node_indices topology) -> P l ->
     place_node locate topology node_bb l i = Ok l' -> P l') ->
  forall t l l',
    place_nodes locate topology t node_bbs l = Ok l' -> P l -> P l'.
Proof.
  induction node_bbs as [| node_bb rest IH]; intros Hstep t l l' E HP;
    simpl in E.
  - inversion E; subst. exact HP.
  - unbind E as l1 E1.
    eapply IH; [| exact E |].
    + intros nb l0 i0 l0' Hnb. apply Hstep. now right.
    + eapply place_nodes_of_type_ind with (P := P); [| exact E1 | exact HP].
      intros l0 i0 l0'. apply Hstep. now left.
Qed.

(** Induction over the edge placements of one template. *)
Lemma place_edges_of_type_ind (P : list (option B) -> Prop)
    topology c invc t edge_bb permutations indices :
  (forall l e l', In e indices ->
     edge_type_eqb t (get_edge_type topology e) = true -> P l ->
     place_edge locate topology c invc edge_bb permutations l e = Ok l' ->
     P l') ->
  forall l l',
    place_edges_of_type locate topology c invc t edge_bb permutations
      indices l = Ok l' ->
    P l -> P l'.
Proof.
  induction indices as [| e rest IH]; intros Hstep l l' E HP; simpl in E.
  - inversion E; subst. exact HP.
  - assert (Hrest : forall l0 e0 l0', In e0 rest ->
              edge_type_eqb t (get_edge_type topology e0) = true -> P l0 ->
              place_edge locate topology c invc edge_bb permutations l0 e0
                = Ok l0' -> P l0').
    { intros l0 e0 l0' He0. apply Hstep. now right. }
    destruct (edge_type_eqb t (get_edge_type topology e)) eqn:Ht.
    + unbind E as l1 E1. apply (IH Hrest l1 l' E).
      apply (Hstep l e l1); [now left | exact Ht | exact HP | exact E1].
    + apply (IH Hrest l l' E HP).
Qed.

(** Induction over all edge placements. *)
Lemma place_edges_ind (P : list (option B) -> Prop)
    topology c invc permutations items :
  (forall t edge_bb l e l', In (t, Some edge_bb) items ->
     In e (edge_indices topology) ->
     edge_type_eqb t (get_edge_type topology e) = true -> P l ->
     place_edge locate topology c invc edge_bb permutations l e = Ok l' ->
     P l') ->
  forall l l',
    place_edges locate topology c invc items permutations l = Ok l' ->
    P l -> P l'.
Proof.
  induction items as [| (t, [edge_bb |]) rest IH]; intros Hstep l l' E HP;
    simpl in E.
  - inversion E; subst. exact HP.
  - unbind E as l1 E1.
    eapply IH; [| exact E |].
    + intros t0 b0 l0 e0 l0' Hin. apply Hstep. now right.
    + eapply place_edges_of_type_ind with (P := P); [| exact E1 | exact HP].
      intros l0 e0 l0'. apply Hstep. now left.
  - eapply IH; [| exact E | exact HP].
    intros t0 b0 l0 e0 l0' Hin. apply Hstep. now right.
Qed.

Lemma place_nodes_length topology node_bbs t (l l' : list (option B)) :
  place_nodes locate topology t node_bbs l = Ok l' -> length l' = length l.
Proof.
  intros E.
  eapply place_nodes_ind with (P := fun l0 => length l0 = length l);
    [| exact E | reflexivity].
  intros node_bb l0 i l0' _ _ Hl0 Hp.
  apply place_node_inv in Hp. destruct Hp as (ln & rms & ctr & _ & _ & Hs).
  apply setitem_length in Hs. congruence.
Qed.

Lemma place_edges_length topology c invc permutations items
    (l l' : list (option B)) :
  place_edges locate topology c invc items permutations l = Ok l' ->
  length l' = length l.
Proof.
  intros E.
  eapply place_edges_ind with (P := fun l0 => length l0 = length l);
    [| exact E | reflexivity].
  intros t edge_bb l0 e l0' _ _ _ Hl0 Hp.
  apply place_edge_inv in Hp.
  destruct Hp as (n1 & n2 & a1 & a2 & b1 & b2 & r1 & r2 & le & rms & Hp).
  destruct Hp as (_ & _ & _ & _ & _ & _ & _ & Hs).
  apply setitem_length in Hs. congruence.
Qed.

(** Node placement leaves the points that are not nodes as they were. *)
Lemma place_nodes_other topology node_bbs t (l l' : list (option B)) j :
  place_nodes locate topology t node_bbs l = Ok l' ->
  ~ In j (node_indices topology) ->
  nth_error l' j = nth_error l j.
Proof.
  intros E Hj.
  eapply place_nodes_ind
    with (P := fun l0 => nth_error l0 j = nth_error l j);
    [| exact E | reflexivity].
  intros node_bb l0 i l0' _ Hi Hl0 Hp.
  apply place_node_inv in Hp. destruct Hp as (ln & rms & ctr & _ & _ & Hs).
  rewrite (setitem_other _ _ Hs); [exact Hl0 |].
  intros ->. contradiction.
Qed.

(** Edge placement changes a point only if it is an edge whose type is a
    key of the mapping with a template. *)
Lemma place_edges_other topology c invc permutations items
    (l l' : list (option B)) j :
  place_edges locate topology c invc items permutations l = Ok l' ->
  (forall t edge_bb, In (t, Some edge_bb) items ->
     In j (edge_indices topology) ->
     edge_type_eqb t (get_edge_type topology j) = false) ->
  nth_error l' j = nth_error l j.
Proof.
  intros E Hj.
  eapply place_edges_ind
    with (P := fun l0 => nth_error l0 j = nth_error l j);
    [| exact E | reflexivity].
  intros t edge_bb l0 e l0' Hin He Ht Hl0 Hp.
  apply place_edge_inv in Hp.
  destruct Hp as (n1 & n2 & a1 & a2 & b1 & b2 & r1 & r2 & le & rms & Hp).
  destruct Hp as (_ & _ & _ & _ & _ & _ & _ & Hs).
  rewrite (setitem_other _ _ Hs); [exact Hl0 |].
  intros ->. rewrite (Hj t edge_bb Hin He) in Ht. discriminate.
Qed.

(** A mapping without templates places nothing and cannot fail. *)
Lemma place_edges_no_template topology c invc permutations items
    (l : list (option B)) :
  (forall t edge_bb, ~ In (t, Some edge_bb) items) ->
  place_edges locate topology c invc items permutations l = Ok l.
Proof.
  induction items as [| (t, [edge_bb |]) rest IH]; intros Hnone; simpl.
  - reflexivity.
  - exfalso. apply (Hnone t edge_bb). now left.
  - apply IH. intros t' b' Hin. apply (Hnone t' b'). now right.
Qed.

End Placement.

Lemma prefix_sum_mono {B : Type} `{BuildingBlock B} (l : list (option B)) :
  forall i j, i <= j -> j <= length l ->
    list_sum (map atom_delta (firstn i l))
    <= list_sum (map atom_delta (firstn j l)).
Proof.
  intros i j Hij. induction Hij as [| j Hij IH]; intros Hj; [lia |].
  rewrite prefix_sum_step by lia. specialize (IH ltac:(lia)). lia.
Qed.

(** C4 (as the code has it).  After a successful build the offsets, one
    per point, start at 0 and grow by the atom count of the block located
    at the previous point, or by 0 where no block is located; hence they
    are non-negative and non-decreasing, and the final offset plus the
    atom count of the block at the last point (0 if that point has no
    block) is the number of atoms of the assembled structure. *)
Theorem index_offsets_are_prefix_sums
    {B : Type} `{BuildingBlock B}
    (scale : Topology -> list B -> list (EdgeType * option B) -> Topology)
    (locate : LocalStructure -> B -> result (B * Q))
    (matching_permutation :
       LocalStructure -> LocalStructure -> result (list nat))
    (topology : Topology) (node_bbs : list B)
    (edge_bbs : option (list (EdgeType * option B))) (verbose : bool)
    (mof : MOF) :
  build scale locate matching_permutation topology node_bbs edge_bbs verbose
  = Ok mof ->
  exists st,
    assemble scale locate matching_permutation topology node_bbs edge_bbs
      = Ok st /\
    let n := n_all_points (st_topology st) in
    length (st_located st) = n /\
    length (st_offsets st) = n /\
    (forall i, i < n ->
       exists v, nth_error (st_offsets st) i = Some (Some v)) /\
    offset_at (st_offsets st) 0 = 0 /\
    (forall i, S i < n ->
       offset_at (st_offsets st) (S i) =
       offset_at (st_offsets st) i + atom_delta (nth i (st_located st) None))
    /\
    (forall i, S i < n ->
       nth i (st_located st) None = None ->
       offset_at (st_offsets st) (S i) = offset_at (st_offsets st) i) /\
    (forall i j, i <= j -> j < n ->
       0 <= offset_at (st_offsets st) i <= offset_at (st_offsets st) j) /\
    offset_at (st_offsets st) (n - 1) + atom_delta (last (st_located st) None)
    = length (mof_positions mof).
Proof.
  intros E. apply build_inv in E. destruct E as (st & Est & Efin).
  exists st. split; [exact Est |].
  apply assemble_inv in Est. destruct Est as (nodes & perms & invc & A).
  intros n.
  assert (Hn : length (st_located st) = n).
  { rewrite (place_edges_length _ _ _ _ _ _ _ (as_place_edges A)).
    rewrite (place_nodes_length _ _ _ _ _ (as_place_nodes A)).
    apply repeat_length. }
  destruct (index_offsets_prefix _ (as_offsets A) Hn) as (Hpos & Hlen & Hpre).
  assert (Hat : forall i, i < n ->
            offset_at (st_offsets st) i =
            list_sum (map atom_delta (firstn i (st_located st)))).
  { intros i Hi. exact (offset_at_prefix _ (as_offsets A) Hn Hi). }
  split; [exact Hn |]. split; [exact Hlen |].
  split; [intros i Hi; eexists; now apply Hpre |].
  split; [now rewrite Hat |].
  split.
  { intros i Hi. rewrite !Hat by lia. apply prefix_sum_step. lia. }
  split.
  { intros i Hi Hnone. rewrite !Hat by lia.
    rewrite prefix_sum_step by lia. rewrite Hnone. simpl. lia. }
  split.
  { intros i j Hij Hj. rewrite !Hat by lia. split; [lia |].
    apply prefix_sum_mono; lia. }
  rewrite (finish_atom_count _ Efin), total_atoms_last by lia.
  rewrite Hat, Hn by lia. reflexivity.
Qed.

Lemma index_offsets_are_prefix_sums_chain :
  exists mof st,
    Chain.build_chain None = Ok mof /\
    Chain.assemble_chain None = Ok st /\
    offset_at (st_offsets st) (n_all_points (st_topology st) - 1)
    + atom_delta (last (st_located st) None)
    = length (mof_positions mof).
Proof.
  assert (E : exists mof, Chain.build_chain None = Ok mof).
  { eexists. vm_compute. reflexivity. }
  destruct E as (mof & E).
  destruct (index_offsets_are_prefix_sums Chain.scale Chain.locate
              Chain.matching_permutation Chain.net Chain.node_bbs None false
              E) as (st & Est & _ & _ & _ & _ & _ & _ & _ & Hfinal).
  exists mof, st. auto.
Defined.

(** With no edge templates the last two points of the chain have no
    block: the final offset, 6, already counts every atom, and adding the
    3 atoms of the last block that exists overshoots the 6 atoms of the
    structure. *)
Lemma final_offset_plus_last_existing_block :
  exists mof st blk,
    Chain.build_chain None = Ok mof /\
    Chain.assemble_chain None = Ok st /\
    last_existing_block (st_located st) = Some blk /\
    last (st_offsets st) None = Some 6 /\
    n_atoms blk = 3 /\
    length (mof_positions mof) = 6 /\
    6 + n_atoms blk <> length (mof_positions mof).
Proof.
  do 3 eexists.
  split; [vm_compute; reflexivity |].
  split; [vm_compute; reflexivity |].
  split; [vm_compute; reflexivity |].
  split; [reflexivity |].
  split; [reflexivity |].
  split; [reflexivity |].
  vm_compute. discriminate.
Qed.

(* ------------------------------------------------------------------ *)
(** ** Bonds of the assembled structure *)

Section Bonds.

Context {B : Type} `{BuildingBlock B}.

Lemma concatenate_ok {A : Type} (arrays : list (list A)) r :
  concatenate arrays = Ok r -> r = concat arrays.
Proof.
  unfold concatenate. destruct arrays; intros E; inversion E; reflexivity.
Qed.

Lemma block_bonds_length (located_bbs : list (option B)) :
  forall offsets arrays,
    length offsets = length located_bbs ->
    block_bonds offsets located_bbs = Ok arrays ->
    length (concat arrays) = intrinsic_bond_count located_bbs.
Proof.
  unfold intrinsic_bond_count.
  induction located_bbs as [| [b |] rest IH]; intros [| o os] arrays Hlen E;
    simpl in Hlen, E; try discriminate.
  - inversion E. reflexivity.
  - destruct o as [o |]; [| discriminate]. unbind E as more Emore.
    inversion E; subst. simpl. rewrite length_app.
    unfold shift_bonds at 1. rewrite length_map.
    rewrite (IH os more) by (auto; lia). reflexivity.
  - simpl. apply (IH os arrays); [lia | exact E].
Qed.

Lemma connect_edge_emitted topology (located_bbs : list (option B))
    permutations offsets j bs :
  connect_edge topology located_bbs permutations offsets j = Ok bs ->
  emitted_for_edge topology located_bbs permutations offsets j bs.
Proof.
  unfold connect_edge. intros E.
  unbind E as found Efound. destruct found as (a1, a2). simpl in E.
  unbind E as rec Erec. destruct rec as (n1, n2).
  apply edge_records_ok in Erec. simpl in E.
  unbind E as o1 Eo1. unbind E as b1 Eb1.
  unbind E as o2 Eo2. unbind E as b2 Eb2. unbind E as bbj Ebbj.
  destruct o1 as [o1 |]; [| discriminate].
  destruct o2 as [o2 |]; [| discriminate].
  simpl in Eb1, Eb2. inversion Eb1; inversion Eb2; subst b1 b2.
  apply getitem_ok in Eo1, Eo2, Ebbj.
  exists a1, a2, n1, n2, o1, o2.
  repeat (split; [assumption |]). rewrite Ebbj.
  destruct bbj as [blk |].
  - unbind E as perm Eperm. apply getitem_ok in Eperm.
    destruct perm as [p |];
      [| unbind E as oj Eoj; unbind E as sh Esh; discriminate].
    unbind E as cps Ecps. unbind E as oj Eoj. apply getitem_ok in Eoj.
    apply take_indices_inv in Ecps. destruct Ecps as (-> & Hrange).
    destruct (reordered (connection_point_indices blk) p)
      as [| e1 [| e2 [| e3 r]]] eqn:Hre;
      try (unbind E as sh Esh; discriminate).
    destruct oj as [oj |]; [| discriminate]. simpl in E.
    inversion E; subst. exists p, e1, e2, oj. auto.
  - inversion E. reflexivity.
Qed.

Lemma emitted_for_edge_length topology (located_bbs : list (option B))
    permutations offsets j bs :
  emitted_for_edge topology located_bbs permutations offsets j bs ->
  length bs = if has_block located_bbs j then 2 else 1.
Proof.
  intros (a1 & a2 & n1 & n2 & o1 & o2 & _ & _ & _ & _ & Hbs).
  unfold has_block. destruct (nth_error located_bbs j) as [[blk |] |].
  - destruct Hbs as (p & e1 & e2 & oj & _ & _ & _ & _ & ->). reflexivity.
  - subst. reflexivity.
  - destruct Hbs.
Qed.

Lemma connect_edges_emitted topology (located_bbs : list (option B))
    permutations offsets indices :
  forall bonds,
    connect_edges topology located_bbs permutations offsets indices
      = Ok bonds ->
    exists per_edge,
      Forall2 (emitted_for_edge topology located_bbs permutations offsets)
        indices per_edge /\
      bonds = concat per_edge.
Proof.
  induction indices as [| j rest IH]; intros bonds E; simpl in E.
  - inversion E. exists []. split; constructor.
  - unbind E as bs Ebs. unbind E as more Emore. inversion E; subst.
    destruct (IH _ Emore) as (per & Hper & ->).
    exists (bs :: per). split; [| reflexivity].
    constructor; [now apply connect_edge_emitted | exact Hper].
Qed.

Lemma emitted_count topology (located_bbs : list (option B))
    permutations offsets indices per_edge :
  Forall2 (emitted_for_edge topology located_bbs permutations offsets)
    indices per_edge ->
  length (concat per_edge) =
  2 * edges_with_block located_bbs indices
  + 1 * edges_without_block located_bbs indices.
Proof.
  unfold edges_with_block, edges_without_block.
  induction 1 as [| j bs rest per Hj _ IH]; [reflexivity |].
  simpl concat. rewrite length_app, IH.
  rewrite (emitted_for_edge_length Hj). simpl filter.
  destruct (has_block located_bbs j); simpl; lia.
Qed.

End Bonds.

(** C2.  The bond list of a successfully built structure is the shifted
    intrinsic bonds of the located blocks followed by the bonds emitted
    edge by edge; an edge with a block emits two bonds, from each matched
    endpoint atom to a connection atom of the edge block picked through the
    block's own permutation, and an edge without a block emits the single
    bond between the two matched endpoint atoms.  Hence the number of bonds
    is the sum of the intrinsic bond counts, plus two per edge with a
    block, plus one per edge without. *)
Theorem bond_count_of_build
    {B : Type} `{BuildingBlock B}
    (scale : Topology -> list B -> list (EdgeType * option B) -> Topology)
    (locate : LocalStructure -> B -> result (B * Q))
    (matching_permutation :
       LocalStructure -> LocalStructure -> result (list nat))
    (topology : Topology) (node_bbs : list B)
    (edge_bbs : option (list (EdgeType * option B))) (verbose : bool)
    (mof : MOF) :
  build scale locate matching_permutation topology node_bbs edge_bbs verbose
  = Ok mof ->
  exists st arrays per_edge,
    assemble scale locate matching_permutation topology node_bbs edge_bbs
      = Ok st /\
    block_bonds (st_offsets st) (st_located st) = Ok arrays /\
    mof_bonds mof = concat arrays ++ concat per_edge /\
    Forall2
      (emitted_for_edge (st_topology st) (st_located st)
         (st_permutations st) (st_offsets st))
      (edge_indices (st_topology st)) per_edge /\
    length (mof_bonds mof) =
      intrinsic_bond_count (st_located st)
      + 2 * edges_with_block (st_located st) (edge_indices (st_topology st))
      + 1 * edges_without_block (st_located st)
              (edge_indices (st_topology st)).
Proof.
  intros E. apply build_inv in E. destruct E as (st & Est & Efin).
  pose proof (assemble_inv _ _ _ _ _ _ Est) as (nodes & perms & invc & A).
  destruct (connect_edges_emitted _ _ _ _ _ (as_bonds A))
    as (per_edge & Hper & Hbonds).
  destruct (as_bb_bonds A) as (arrays & Harrays & Hconcat).
  apply concatenate_ok in Hconcat.
  assert (Hn : length (st_located st) = n_all_points (st_topology st)).
  { rewrite (place_edges_length _ _ _ _ _ _ _ (as_place_edges A)).
    rewrite (place_nodes_length _ _ _ _ _ (as_place_nodes A)).
    apply repeat_length. }
  destruct (index_offsets_prefix _ (as_offsets A) Hn) as (_ & Hlen & _).
  exists st, arrays, per_edge. split; [exact Est |].
  split; [exact Harrays |].
  rewrite (finish_bonds _ Efin), Hconcat, Hbonds.
  split; [reflexivity |]. split; [exact Hper |].
  assert (Hbb : length (concat arrays)
                = intrinsic_bond_count (st_located st)).
  { eapply block_bonds_length; [| exact Harrays]. congruence. }
  rewrite length_app, (emitted_count Hper), Hbb. lia.
Qed.

Lemma bond_count_of_build_chain :
  exists mof st,
    Chain.build_chain Chain.with_linkers = Ok mof /\
    Chain.assemble_chain Chain.with_linkers = Ok st /\
    length (mof_bonds mof) =
      intrinsic_bond_count (st_located st)
      + 2 * edges_with_block (st_located st) (edge_indices (st_topology st))
      + 1 * edges_without_block (st_located st)
              (edge_indices (st_topology st)).
Proof.
  assert (E : exists mof, Chain.build_chain Chain.with_linkers = Ok mof).
  { eexists. vm_compute. reflexivity. }
  destruct E as (mof & E).
  destruct (bond_count_of_build Chain.scale Chain.locate
              Chain.matching_permutation Chain.net Chain.node_bbs
              Chain.with_linkers false E)
    as (st & arrays & per & Est & _ & _ & _ & Hn).
  exists mof, st. auto.
Defined.

(** The chain with linkers: 4 + 2 intrinsic bonds and two bonds for each
    of the two edges. *)
Example bond_count_chain_with_linkers :
  exists mof, Chain.build_chain Chain.with_linkers = Ok mof /\
              length (mof_bonds mof) = 4 + 2 + 2 * 2.
Proof. eexists. split; vm_compute; reflexivity. Qed.

(* ------------------------------------------------------------------ *)
(** ** Edges without a template *)

Lemma edge_type_eqb_eq (a b : EdgeType) :
  edge_type_eqb a b = true <-> a = b.
Proof.
  destruct a as (a1, a2), b as (b1, b2). unfold edge_type_eqb. simpl.
  rewrite andb_true_iff, !Z.eqb_eq. split.
  - intros (-> & ->). reflexivity.
  - intros E. inversion E. auto.
Qed.

Lemma edge_type_eqb_neq (a b : EdgeType) :
  edge_type_eqb a b = false <-> a <> b.
Proof.
  rewrite <- edge_type_eqb_eq. destruct (edge_type_eqb a b); split;
    congruence.
Qed.

(** Either the mapping holds a template under the key [ty], or no key that
    holds a template equals [ty]. *)
Lemma template_for_type {B : Type} (items : list (EdgeType * option B))
    (ty : EdgeType) :
  (exists edge_bb, In (ty, Some edge_bb) items) \/
  (forall t edge_bb, In (t, Some edge_bb) items -> edge_type_eqb t ty = false).
Proof.
  induction items as [| (t, v) rest IH].
  - right. intros t edge_bb [].
  - destruct IH as [(edge_bb & Hin) | Hnone].
    + left. exists edge_bb. now right.
    + destruct v as [edge_bb |].
      * destruct (edge_type_eqb t ty) eqn:Ht.
        -- apply edge_type_eqb_eq in Ht. subst t.
           left. exists edge_bb. now left.
        -- right. intros t' b' [Heq | Hin]; [| eauto].
           inversion Heq; subst. exact Ht.
      * right. intros t' b' [Heq | Hin]; [discriminate | eauto].
Qed.

Lemma filter_none {A : Type} (f : A -> bool) (l : list A) :
  (forall x, In x l -> f x = false) ->
  filter f l = [] /\ filter (fun x => negb (f x)) l = l.
Proof.
  induction l as [| a r IH]; intros Hf; [split; reflexivity |].
  simpl. rewrite (Hf a (or_introl eq_refl)). simpl.
  destruct IH as (-> & ->); [| split; reflexivity].
  intros x Hx. apply Hf. now right.
Qed.

Section Untyped.

Context {B : Type} `{BuildingBlock B}.
Variable scale : Topology -> list B -> list (EdgeType * option B) -> Topology.
Variable locate : LocalStructure -> B -> result (B * Q).
Variable matching_permutation :
  LocalStructure -> LocalStructure -> result (list nat).

(** An edge point that is not a node and whose type is no key with a
    template keeps no block, and is stitched by one direct bond. *)
Lemma edge_without_template topology node_bbs edge_bbs nodes perms invc st e :
  assembled scale locate matching_permutation topology node_bbs edge_bbs
    nodes perms invc st ->
  In e (edge_indices (st_topology st)) ->
  ~ In e (node_indices (st_topology st)) ->
  (forall t edge_bb, In (t, Some edge_bb) (edge_items edge_bbs) ->
     edge_type_eqb t (get_edge_type (st_topology st) e) = false) ->
  nth_error (st_located st) e = Some None /\
  bonded_directly (st_topology st) (st_located st) (st_permutations st)
    (st_offsets st) e.
Proof.
  intros A He Hnode Hkeys.
  destruct (connect_edges_each _ _ _ _ _ (as_bonds A) e He) as (bs & Hbs).
  pose proof (connect_edge_emitted _ _ _ _ _ Hbs) as Hem.
  destruct Hem as (a1 & a2 & n1 & n2 & o1 & o2 & Hm & Hrec & Ho1 & Ho2 & Hb).
  assert (Hsame : nth_error (st_located st) e =
                  nth_error (repeat (@None B)
                               (n_all_points (st_topology st))) e).
  { rewrite (place_edges_other _ _ _ _ _ _ _ _ (as_place_edges A)).
    - apply (place_nodes_other _ _ _ _ _ _ (as_place_nodes A) Hnode).
    - intros t edge_bb Hin _. now apply (Hkeys t edge_bb). }
  assert (Hnone : nth_error (st_located st) e = Some None).
  { destruct (nth_error (st_located st) e) as [v |] eqn:Hv; [| destruct Hb].
    symmetry in Hsame. apply nth_error_In, repeat_spec in Hsame.
    now subst v. }
  split; [exact Hnone |].
  rewrite Hnone in Hb. subst bs.
  exists a1, a2, n1, n2, o1, o2. auto.
Qed.

End Untyped.

(** C5.  A mapping without templates (or no mapping) never stops the edge
    placement: no key is ever looked up and the located blocks come back
    unchanged.  After a successful build on a topology whose edges are not
    nodes, an edge whose type has no template in the mapping has no block
    and is stitched by exactly one direct bond between the two matched
    endpoint atoms; with no templates at all the inter-block bonds are as
    many as the edges. *)
Theorem untyped_edges_bonded_directly
    {B : Type} `{BuildingBlock B}
    (scale : Topology -> list B -> list (EdgeType * option B) -> Topology)
    (locate : LocalStructure -> B -> result (B * Q))
    (matching_permutation :
       LocalStructure -> LocalStructure -> result (list nat))
    (topology : Topology) (node_bbs : list B)
    (edge_bbs : option (list (EdgeType * option B))) :
  ((forall t edge_bb, ~ In (t, Some edge_bb) (edge_items edge_bbs)) ->
   forall scaled c invc permutations located_bbs,
     place_edges locate scaled c invc (edge_items edge_bbs)
       permutations located_bbs = Ok located_bbs) /\
  (forall st,
     assemble scale locate matching_permutation topology node_bbs edge_bbs
       = Ok st ->
     (forall e, In e (edge_indices (st_topology st)) ->
                ~ In e (node_indices (st_topology st))) ->
     (forall e,
        In e (edge_indices (st_topology st)) ->
        (forall edge_bb,
           ~ In (get_edge_type (st_topology st) e, Some edge_bb)
                (edge_items edge_bbs)) ->
        nth_error (st_located st) e = Some None /\
        bonded_directly (st_topology st) (st_located st)
          (st_permutations st) (st_offsets st) e) /\
     ((forall t edge_bb, ~ In (t, Some edge_bb) (edge_items edge_bbs)) ->
      length (st_bonds st) = length (edge_indices (st_topology st)))).
Proof.
  split.
  { intros Hnone scaled c invc permutations located_bbs.
    now apply place_edges_no_template. }
  intros st Est Hedges.
  pose proof (assemble_inv _ _ _ _ _ _ Est) as (nodes & perms & invc & A).
  assert (Hone : forall e,
            In e (edge_indices (st_topology st)) ->
            (forall edge_bb,
               ~ In (get_edge_type (st_topology st) e, Some edge_bb)
                    (edge_items edge_bbs)) ->
            nth_error (st_located st) e = Some None /\
            bonded_directly (st_topology st) (st_located st)
              (st_permutations st) (st_offsets st) e).
  { intros e He Hkey.
    eapply edge_without_template;
      [exact A | exact He | exact (Hedges e He) |].
    intros t edge_bb Hin. apply edge_type_eqb_neq. intros ->.
    exact (Hkey edge_bb Hin). }
  split; [exact Hone |].
  intros Hnone.
  destruct (connect_edges_emitted _ _ _ _ _ (as_bonds A))
    as (per_edge & Hper & ->).
  rewrite (emitted_count Hper).
  unfold edges_with_block, edges_without_block.
  destruct (filter_none (has_block (st_located st))
              (edge_indices (st_topology st))) as (-> & ->).
  - intros e He. unfold has_block.
    destruct (Hone e He) as (-> & _); [| reflexivity].
    intros edge_bb. apply Hnone.
  - simpl. lia.
Qed.

Lemma untyped_edges_bonded_directly_chain :
  exists st,
    Chain.assemble_chain None = Ok st /\
    nth_error (st_located st) 2 = Some None /\
    length (st_bonds st) = length (edge_indices (st_topology st)).
Proof.
  assert (E : exists st, Chain.assemble_chain None = Ok st).
  { eexists. vm_compute. reflexivity. }
  destruct E as (st & E).
  pose proof (assemble_inv _ _ _ _ _ _ E) as (nodes & perms & invc & A).
  assert (Hedges : forall e, In e (edge_indices (st_topology st)) ->
                             ~ In e (node_indices (st_topology st))).
  { rewrite (as_topology A). simpl. intros e He Hn.
    destruct He as [<- | [<- | []]]; destruct Hn as [Hn | [Hn | []]];
      discriminate. }
  destruct (proj2 (untyped_edges_bonded_directly Chain.scale Chain.locate
                     Chain.matching_permutation Chain.net Chain.node_bbs
                     None) st E Hedges) as (Hone & Hall).
  exists st. split; [exact E |]. split.
  - apply Hone.
    + rewrite (as_topology A). simpl. auto.
    + intros edge_bb [].
  - apply Hall. intros t edge_bb [].
Defined.

(** C9.  After a successful build, an edge [e] (a point that is not a
    node) holds a block only if the mapping has a template under a key
    equal to the ordered pair [get_edge_type e]; when [get_edge_type e] is
    [(ti, tj)] with [ti <> tj] and the templates of the mapping are keyed
    by the reversed pair [(tj, ti)], the edge holds no block and is
    stitched by one direct bond, as an edge of a type without template. *)
Theorem edge_block_needs_ordered_key
    {B : Type} `{BuildingBlock B}
    (scale : Topology -> list B -> list (EdgeType * option B) -> Topology)
    (locate : LocalStructure -> B -> result (B * Q))
    (matching_permutation :
       LocalStructure -> LocalStructure -> result (list nat))
    (topology : Topology) (node_bbs : list B)
    (edge_bbs : option (list (EdgeType * option B))) (st : BuildState)
    (e : nat) :
  assemble scale locate matching_permutation topology node_bbs edge_bbs
    = Ok st ->
  In e (edge_indices (st_topology st)) ->
  ~ In e (node_indices (st_topology st)) ->
  (forall blk, nth_error (st_located st) e = Some (Some blk) ->
     exists edge_bb,
       In (get_edge_type (st_topology st) e, Some edge_bb)
          (edge_items edge_bbs)) /\
  (forall ti tj,
     get_edge_type (st_topology st) e = (ti, tj) ->
     ti <> tj ->
     (forall t edge_bb, In (t, Some edge_bb) (edge_items edge_bbs) ->
                        t = (tj, ti)) ->
     nth_error (st_located st) e = Some None /\
     bonded_directly (st_topology st) (st_located st) (st_permutations st)
       (st_offsets st) e).
Proof.
  intros Est He Hnode.
  pose proof (assemble_inv _ _ _ _ _ _ Est) as (nodes & perms & invc & A).
  split.
  - intros blk Hblk.
    destruct (template_for_type (edge_items edge_bbs)
                (get_edge_type (st_topology st) e)) as [Hyes | Hno];
      [exact Hyes |].
    assert (Hnone : nth_error (st_located st) e = Some None).
    { eapply edge_without_template;
        [exact A | exact He | exact Hnode | exact Hno]. }
    congruence.
  - intros ti tj Hty Hne Hkeys.
    eapply edge_without_template; [exact A | exact He | exact Hnode |].
    intros t edge_bb Hin. rewrite (Hkeys t edge_bb Hin), Hty.
    apply edge_type_eqb_neq. intros Heq. inversion Heq. congruence.
Qed.

Lemma edge_block_needs_ordered_key_chain :
  exists st,
    Chain.assemble_chain Chain.reversed_key = Ok st /\
    nth_error (st_located st) 2 = Some None /\
    bonded_directly (st_topology st) (st_located st) (st_permutations st)
      (st_offsets st) 2.
Proof.
  assert (E : exists st, Chain.assemble_chain Chain.reversed_key = Ok st).
  { eexists. vm_compute. reflexivity. }
  destruct E as (st & E).
  pose proof (assemble_inv _ _ _ _ _ _ E) as (nodes & perms & invc & A).
  assert (He : In 2 (edge_indices (st_topology st))).
  { rewrite (as_topology A). simpl. auto. }
  assert (Hnode : ~ In 2 (node_indices (st_topology st))).
  { rewrite (as_topology A). simpl. intros [Hn | [Hn | []]]; discriminate. }
  destruct (@edge_block_needs_ordered_key _ _ Chain.scale Chain.locate
              Chain.matching_permutation Chain.net Chain.node_bbs
              Chain.reversed_key st 2 E He Hnode) as (_ & Hrev).
  exists st. split; [exact E |].
  apply (Hrev 0%Z 1%Z).
  - rewrite (as_topology A). reflexivity.
  - discriminate.
  - intros t edge_bb [Heq | []]. inversion Heq. reflexivity.
Defined.

(** The chain whose only template is keyed by the reversed pair is built
    like the chain without templates. *)
Example reversed_key_places_no_block :
  Chain.build_chain Chain.reversed_key = Chain.build_chain None.
Proof. vm_compute. reflexivity. Qed.

(* ------------------------------------------------------------------ *)
(** ** Centres of the located blocks *)

Section Centres.

Context {B : Type} `{BuildingBlock B}.
Variable locate : LocalStructure -> B -> result (B * Q).
Variable matching_permutation :
  LocalStructure -> LocalStructure -> result (list nat).

Lemma place_nodes_centred topology node_bbs t n (l : list (option B)) :
  place_nodes locate topology t node_bbs (repeat None n) = Ok l ->
  forall i blk, nth_error l i = Some (Some blk) ->
                centred_at_point topology i blk.
Proof.
  intros E.
  eapply place_nodes_ind
    with (P := fun l0 => forall i blk, nth_error l0 i = Some (Some blk) ->
                                       centred_at_point topology i blk);
    [| exact E |].
  - intros node_bb l0 i l0' _ _ Hl0 Hp j blk Hj.
    apply place_node_inv in Hp.
    destruct Hp as (ln & rms & ctr & _ & Hctr & Hs).
    destruct (Nat.eq_dec j i) as [-> | Hne].
    + rewrite (setitem_same _ _ _ Hs) in Hj. inversion Hj; subst.
      exists ctr, ln. auto.
    + rewrite (setitem_other _ _ Hs Hne) in Hj. now apply Hl0.
  - intros i blk Hi. apply nth_error_In, repeat_spec in Hi. discriminate.
Qed.

Lemma place_edges_centred topology c invc permutations items
    (nodes l : list (option B)) :
  place_edges locate topology c invc items permutations nodes = Ok l ->
  agree_off (edge_indices topology) l nodes /\
  forall j blk, nth_error l j = Some (Some blk) ->
    nth_error nodes j = Some (Some blk) \/
    centred_at_midpoint topology c invc nodes permutations j blk.
Proof.
  intros E.
  eapply place_edges_ind
    with (P := fun l0 =>
                 agree_off (edge_indices topology) l0 nodes /\
                 forall j blk, nth_error l0 j = Some (Some blk) ->
                   nth_error nodes j = Some (Some blk) \/
                   centred_at_midpoint topology c invc nodes permutations
                     j blk);
    [| exact E |].
  - intros t edge_bb l0 e l0' _ He _ (Hagree & Hblocks) Hp.
    apply place_edge_inv in Hp.
    destruct Hp as (n1 & n2 & a1 & a2 & b1 & b2 & r1 & r2 & le & rms & Hp).
    destruct Hp as (Hrec & Hm & Hb1 & Hb2 & Hr1 & Hr2 & _ & Hs).
    split.
    + intros i Hi. rewrite (setitem_other _ _ Hs); [now apply Hagree |].
      intros ->. contradiction.
    + intros j blk Hj. destruct (Nat.eq_dec j e) as [-> | Hne].
      * right. rewrite (setitem_same _ _ _ Hs) in Hj. inversion Hj; subst.
        exists l0, (edge_center c invc r1 r2), le.
        split; [exact Hagree |]. split; [| reflexivity].
        exists n1, n2, a1, a2, b1, b2, r1, r2.
        repeat (split; [assumption |]). reflexivity.
      * rewrite (setitem_other _ _ Hs Hne) in Hj. now apply Hblocks.
  - split; [intros i _; reflexivity | intros j blk Hj; now left].
Qed.

Lemma match_block_other topology blk permutations i p j :
  match_block matching_permutation topology blk permutations i = Ok p ->
  j <> i -> nth_error p j = nth_error permutations j.
Proof.
  unfold match_block. intros E Hne. unbind E as perm Eperm.
  now apply (setitem_other _ _ E).
Qed.

(** The permutations of the edges leave those of the other points. *)
Lemma edge_permutations_other topology (located_bbs : list (option B))
    indices :
  forall permutations p,
    edge_permutations matching_permutation topology located_bbs indices
      permutations = Ok p ->
    agree_off indices permutations p.
Proof.
  induction indices as [| i rest IH]; intros permutations p E j Hj;
    simpl in E.
  - inversion E. reflexivity.
  - unbind E as bb Ebb.
    assert (Hji : j <> i) by (intros ->; apply Hj; now left).
    assert (Hjr : ~ In j rest) by (intros Hin; apply Hj; now right).
    destruct bb as [blk |].
    + unbind E as p1 Ep1. rewrite <- (IH _ _ E j Hjr).
      symmetry. eapply match_block_other; eauto.
    + exact (IH _ _ E j Hjr).
Qed.

End Centres.

(** C7 (as the code has it).  Let [centroid] be the centre that
    [set_center] moves, [centroid (set_center c b) = c].  After a
    successful build, every located block at a point that is not an edge
    has its centroid at [topology.atoms.position] of that point; every
    located block at an edge point (a point that is not a node) has its
    centroid at [r1 + 0.5 d], the middle of the minimum-image segment from
    the matched atom [r1] of the edge's first endpoint to the matched atom
    of its second, read when the edge was placed (a state that agrees with
    the final one away from the edges).  The position of the edge point in
    the topology is not used. *)
Theorem located_block_centres
    {B : Type} `{BuildingBlock B}
    (scale : Topology -> list B -> list (EdgeType * option B) -> Topology)
    (locate : LocalStructure -> B -> result (B * Q))
    (matching_permutation :
       LocalStructure -> LocalStructure -> result (list nat))
    (centroid : B -> vec)
    (topology : Topology) (node_bbs : list B)
    (edge_bbs : option (list (EdgeType * option B))) (st : BuildState) :
  (forall c b, veq (centroid (set_center c b)) c) ->
  assemble scale locate matching_permutation topology node_bbs edge_bbs
    = Ok st ->
  (forall i blk,
     ~ In i (edge_indices (st_topology st)) ->
     nth_error (st_located st) i = Some (Some blk) ->
     exists p, nth_error (atoms_position (st_topology st)) i = Some p /\
               veq (centroid blk) p) /\
  (exists invc,
     linalg_inv (cell (st_topology st)) = Ok invc /\
     forall e blk,
       ~ In e (node_indices (st_topology st)) ->
       nth_error (st_located st) e = Some (Some blk) ->
       exists located_at permutations_at center,
         agree_off (edge_indices (st_topology st)) located_at
           (st_located st) /\
         agree_off (edge_indices (st_topology st)) permutations_at
           (st_permutations st) /\
         edge_midpoint (st_topology st) (cell (st_topology st)) invc
           located_at permutations_at e center /\
         veq (centroid blk) center).
Proof.
  intros Hlaw Est.
  pose proof (assemble_inv _ _ _ _ _ _ Est) as (nodes & perms & invc & A).
  pose proof (place_nodes_centred _ _ _ _ _ (as_place_nodes A)) as Hnodes.
  pose proof (place_edges_centred _ _ _ _ _ _ _ (as_place_edges A))
    as (Hagree & Hblocks).
  pose proof (edge_permutations_other _ _ _ _ _ (as_edge_permutations A))
    as Hperms.
  split.
  - intros i blk Hi Hblk. rewrite (Hagree i Hi) in Hblk.
    destruct (Hnodes i blk Hblk) as (p & ln & Hp & ->).
    exists p. split; [exact Hp | apply Hlaw].
  - exists invc. split; [exact (as_inverse A) |].
    intros e blk He Hblk.
    destruct (Hblocks e blk Hblk) as [Hold | Hnew].
    + exfalso.
      rewrite (place_nodes_other _ _ _ _ _ _ (as_place_nodes A) He) in Hold.
      apply nth_error_In, repeat_spec in Hold. discriminate.
    + destruct Hnew as (located_at & center & le & Hat & Hmid & ->).
      exists located_at, perms, center.
      split; [| split; [exact Hperms | split; [exact Hmid | apply Hlaw]]].
      intros i Hi. rewrite (Hat i Hi). symmetry. now apply Hagree.
Qed.

Lemma located_block_centres_chain :
  exists st blk p,
    Chain.assemble_chain Chain.with_linkers = Ok st /\
    nth_error (st_located st) 0 = Some (Some blk) /\
    nth_error (atoms_position (st_topology st)) 0 = Some p /\
    veq (Chain.centroid blk) p.
Proof.
  assert (E : exists st blk,
             Chain.assemble_chain Chain.with_linkers = Ok st /\
             nth_error (st_located st) 0 = Some (Some blk) /\
             ~ In 0 (edge_indices (st_topology st))).
  { do 2 eexists. split; [vm_compute; reflexivity |].
    split; [vm_compute; reflexivity |].
    simpl. intros [Hn | [Hn | []]]; discriminate. }
  destruct E as (st & blk & E & Hblk & Hne).
  assert (Hlaw : forall c b, veq (Chain.centroid (set_center c b)) c).
  { intros c b. unfold veq. simpl. repeat split; reflexivity. }
  destruct (@located_block_centres _ _ Chain.scale Chain.locate
              Chain.matching_permutation Chain.centroid Chain.net
              Chain.node_bbs Chain.with_linkers st Hlaw E) as (Hnodes & _).
  destruct (Hnodes 0 blk Hne Hblk) as (p & Hp & Hveq).
  exists st, blk, p. auto.
Defined.

(** In the chain with linkers the block on edge 2 sits between the matched
    atoms of its endpoints, at x = 9/2 (the arms of the two node blocks
    have lengths 1 and 2; the mean of the block's two atoms is there too),
    half a unit away from the position x = 5 of the edge point in the
    topology. *)
Lemma edge_block_off_topology_position :
  exists st blk p,
    Chain.assemble_chain Chain.with_linkers = Ok st /\
    nth_error (st_located st) 2 = Some (Some blk) /\
    nth_error (atoms_position (st_topology st)) 2 = Some p /\
    (vx (Chain.centroid blk) == 9 # 2)%Q /\
    (vx (Chain.mean (atoms_positions blk)) == 9 # 2)%Q /\
    (vx p == 5)%Q /\
    ~ veq (Chain.centroid blk) p.
Proof.
  do 3 eexists.
  split; [vm_compute; reflexivity |].
  split; [vm_compute; reflexivity |].
  split; [vm_compute; reflexivity |].
  split; [vm_compute; reflexivity |].
  split; [vm_compute; reflexivity |].
  split; [vm_compute; reflexivity |].
  intros (Hx & _). vm_compute in Hx. discriminate.
Qed.

(* ------------------------------------------------------------------ *)
(** * Further properties of the builder *)

Unset Implicit Arguments.

(** ** The wrapping step and the minimum image *)

Lemma wrap_component_unit_shift (s : Q) :
  unit_shift (wrap_component s - s)%Q.
Proof.
  unfold unit_shift.
  destruct (wrap_component_cases s)
    as [(_ & ->) | [(_ & ->) | (_ & _ & ->)]].
  - left. ring.
  - right. right. ring.
  - right. left. ring.
Qed.

Lemma wrap_component_fixed (s : Q) :
  (- (1 # 2) <= s)%Q -> (s <= 1 # 2)%Q -> wrap_component s = s.
Proof.
  intros Hlo Hhi.
  destruct (wrap_component_cases s)
    as [(H1 & _) | [(H1 & _) | (_ & _ & ->)]]; [lra | lra | reflexivity].
Qed.

(** X1.  The wrapping step of lines 147-148 leaves a fractional component
    of [-0.5, 0.5] as it is, moves any other component by exactly one cell
    towards zero, and so never increases the magnitude of a component. *)
Theorem wrap_component_shortens (s : Q) :
  unit_shift (wrap_component s - s)%Q /\
  (Qabs (wrap_component s) <= Qabs s)%Q /\
  ((- (1 # 2) <= s)%Q -> (s <= 1 # 2)%Q -> wrap_component s = s) /\
  ((1 # 2 < Qabs s)%Q -> (Qabs (wrap_component s) < Qabs s)%Q).
Proof.
  split; [apply wrap_component_unit_shift |].
  split; [| split; [apply wrap_component_fixed |]].
  - destruct (wrap_component_cases s)
      as [(H1 & ->) | [(H1 & ->) | (_ & _ & ->)]].
    + rewrite (Qabs_pos s) by lra. apply Qabs_case; intros; lra.
    + rewrite (Qabs_neg s) by lra. apply Qabs_case; intros; lra.
    + apply Qle_refl.
  - intros Habs.
    destruct (wrap_component_cases s)
      as [(H1 & ->) | [(H1 & ->) | (H1 & H2 & _)]].
    + rewrite (Qabs_pos s) by lra. apply Qabs_case; intros; lra.
    + rewrite (Qabs_neg s) by lra. apply Qabs_case; intros; lra.
    + exfalso. revert Habs. apply Qabs_case; intros; lra.
Qed.

Lemma linalg_inv_det (m invc : mat3) :
  linalg_inv m = Ok invc -> ~ (det3 m == 0)%Q.
Proof.
  destruct m as ((r0, r1), r2). unfold linalg_inv.
  destruct (Qeq_bool (det3 (r0, r1, r2)) 0) eqn:E; [discriminate |].
  intros _ Hz. apply Qeq_bool_neq in E. contradiction.
Qed.

(** [(v @ invc) @ c] is [v] when [invc] is the inverse of [c]. *)
Lemma linalg_inv_right (m invc : mat3) (v : vec) :
  linalg_inv m = Ok invc -> veq (vecmat (vecmat v invc) m) v.
Proof.
  intros E. pose proof (linalg_inv_det _ _ E) as Hd.
  destruct m as ((((a, b), c), ((d, e), f)), ((g, h), i)).
  destruct v as ((x, y), z).
  unfold linalg_inv in E.
  destruct (Qeq_bool _ 0); [discriminate |]. inversion E; subst; clear E.
  unfold det3 in Hd.
  unfold veq, vecmat, vadd, vscale, vx, vy, vz, det3 in *. simpl in *.
  repeat split; field; exact Hd.
Qed.

(** X2.  With [invc] the inverse of the cell [c], the displacement that the
    edge placement uses (lines 143-149) is the raw displacement plus a
    lattice vector [k @ c] whose coefficients are -1, 0 or 1; and it is the
    raw displacement itself when every fractional component of it lies in
    [-0.5, 0.5]. *)
Theorem minimum_image_lattice_shift (c invc : mat3) (d : vec) :
  linalg_inv c = Ok invc ->
  (exists k : vec,
     (forall a, unit_shift (component a k)) /\
     veq (minimum_image c invc d) (vadd d (vecmat k c))) /\
  (within_half_cell (fractional invc d) ->
   veq (minimum_image c invc d) d).
Proof.
  intros E. split.
  - exists (vsub (wrapped_fractional invc d) (fractional invc d)). split.
    + intros a. unfold wrapped_fractional.
      replace (component a
                 (vsub (vmap wrap_component (fractional invc d))
                    (fractional invc d)))
        with (wrap_component (component a (fractional invc d))
              - component a (fractional invc d))%Q
        by (destruct a; reflexivity).
      apply wrap_component_unit_shift.
    + pose proof (linalg_inv_right c invc d E) as Hd.
      unfold minimum_image, wrapped_fractional, fractional in *.
      set (s := vecmat d invc) in *.
      set (w := vmap wrap_component s).
      destruct c as ((((c00, c01), c02), ((c10, c11), c12)),
                     ((c20, c21), c22)).
      destruct d as ((x, y), z). destruct s as ((s0, s1), s2).
      destruct w as ((w0, w1), w2).
      unfold veq, vecmat, vadd, vsub, vscale, vx, vy, vz in *. simpl in *.
      destruct Hd as (Hx & Hy & Hz). repeat split; lra.
  - intros Hin. unfold minimum_image, wrapped_fractional.
    assert (Hsame : vmap wrap_component (fractional invc d)
                    = fractional invc d).
    { destruct (fractional invc d) as ((s0, s1), s2) eqn:Hs.
      pose proof (Hin axis_x) as (Hx1 & Hx2).
      pose proof (Hin axis_y) as (Hy1 & Hy2).
      pose proof (Hin axis_z) as (Hz1 & Hz2).
      unfold component, vmap, vx, vy, vz in *. simpl in *.
      rewrite (wrap_component_fixed s0) by lra.
      rewrite (wrap_component_fixed s1) by lra.
      rewrite (wrap_component_fixed s2) by lra.
      reflexivity. }
    rewrite Hsame. unfold fractional. now apply linalg_inv_right.
Qed.

Lemma minimum_image_lattice_shift_chain :
  exists invc,
    linalg_inv (cell Chain.net) = Ok invc /\
    veq (minimum_image (cell Chain.net) invc (3, 0, 0)%Q) (3, 0, 0)%Q.
Proof.
  eexists. split; [vm_compute; reflexivity |].
  refine (proj2 (minimum_image_lattice_shift (cell Chain.net) _
                   (3, 0, 0)%Q _) _).
  - vm_compute. reflexivity.
  - intros k. destruct k; vm_compute; split; discriminate.
Defined.

(* ------------------------------------------------------------------ *)
(** ** What a successful build certifies *)

Section Certified.

Context {B : Type} `{BuildingBlock B}.
Variable scale : Topology -> list B -> list (EdgeType * option B) -> Topology.
Variable locate : LocalStructure -> B -> result (B * Q).
Variable matching_permutation :
  LocalStructure -> LocalStructure -> result (list nat).

(** A matched atom is an entry of the connection points of a block, read
    through a permutation whose indices are all in range. *)
Lemma matched_atom_inv permutations i (bb : option B) o a :
  matched_atom permutations i bb o = Ok a ->
  exists blk p,
    bb = Some blk /\
    nth_error permutations i = Some (Some p) /\
    Forall (fun k => k < length (connection_point_indices blk)) p /\
    o < length p /\
    a = nth o (reordered (connection_point_indices blk) p) 0 /\
    In a (connection_point_indices blk).
Proof.
  unfold matched_atom. intros E.
  unbind E as perm Eperm. unbind E as blk Eblk.
  destruct bb as [b |]; [| discriminate]. inversion Eblk; subst b.
  destruct perm as [p |]; [| destruct o; discriminate].
  unbind E as picked Epicked.
  apply take_indices_inv in Epicked. destruct Epicked as (-> & Hrange).
  pose proof (getitem_in_range _ _ E) as Ho.
  unfold reordered in Ho. rewrite length_map in Ho.
  apply getitem_ok in E, Eperm.
  assert (Ha : a = nth o (reordered (connection_point_indices blk) p) 0).
  { symmetry. now apply nth_error_nth. }
  exists blk, p.
  split; [reflexivity |]. split; [exact Eperm |]. split; [exact Hrange |].
  split; [exact Ho |]. split; [exact Ha |].
  unfold reordered in E. rewrite nth_error_map in E.
  destruct (nth_error p o) as [k |] eqn:Hk; [| discriminate].
  simpl in E. inversion E. apply nth_In.
  rewrite Forall_forall in Hrange. apply Hrange.
  eapply nth_error_In. exact Hk.
Qed.

Lemma find_matched_atom_indices_sound topology
    (located_bbs : list (option B)) permutations e a1 a2 :
  find_matched_atom_indices topology located_bbs permutations e
    = Ok (a1, a2) ->
  edge_sound topology located_bbs permutations e.
Proof.
  intros E. apply find_matched_atom_indices_inv in E.
  destruct E as (n1 & n2 & ns1 & ns2 & bb1 & bb2 & k1 & k2 & E).
  destruct E as (He & Hb1 & Hb2 & Hn1 & Hn2 & F1 & F2 & M1 & M2).
  apply matched_atom_inv in M1, M2.
  destruct M1 as (blk1 & p1 & -> & Hp1 & _ & Hk1 & _).
  destruct M2 as (blk2 & p2 & -> & Hp2 & _ & Hk2 & _).
  exists n1, n2, ns1, ns2, blk1, blk2, p1, p2, k1, k2.
  repeat (split; [assumption |]). assumption.
Qed.

End Certified.

(** X3.  A build that returns a structure has checked every edge of the
    scaled topology: the edge keeps exactly two neighbour records, both
    endpoints hold a located block and a permutation, and each endpoint
    keeps a neighbour record that is the reciprocal (norm of the sum below
    1e-3) of the record the edge keeps for it, at a position the
    permutation covers. *)
Theorem successful_build_edges_sound
    {B : Type} `{BuildingBlock B}
    (scale : Topology -> list B -> list (EdgeType * option B) -> Topology)
    (locate : LocalStructure -> B -> result (B * Q))
    (matching_permutation :
       LocalStructure -> LocalStructure -> result (list nat))
    (topology : Topology) (node_bbs : list B)
    (edge_bbs : option (list (EdgeType * option B))) (verbose : bool)
    (mof : MOF) :
  build scale locate matching_permutation topology node_bbs edge_bbs verbose
  = Ok mof ->
  exists st,
    assemble scale locate matching_permutation topology node_bbs edge_bbs
      = Ok st /\
    forall e, In e (edge_indices (st_topology st)) ->
      edge_sound (st_topology st) (st_located st) (st_permutations st) e.
Proof.
  intros E. apply build_inv in E. destruct E as (st & Est & _).
  exists st. split; [exact Est |].
  apply assemble_inv in Est. destruct Est as (nodes & perms & invc & A).
  intros e He.
  destruct (connect_edges_each _ _ _ _ _ (as_bonds A) e He) as (bs & Hbs).
  apply connect_edge_matched in Hbs. destruct Hbs as (a1 & a2 & Hm).
  eapply find_matched_atom_indices_sound. exact Hm.
Qed.

Lemma successful_build_edges_sound_chain :
  exists mof st,
    Chain.build_chain Chain.with_linkers = Ok mof /\
    Chain.assemble_chain Chain.with_linkers = Ok st /\
    forall e, In e (edge_indices (st_topology st)) ->
      edge_sound (st_topology st) (st_located st) (st_permutations st) e.
Proof.
  assert (E : exists mof, Chain.build_chain Chain.with_linkers = Ok mof).
  { eexists. vm_compute. reflexivity. }
  destruct E as (mof & E).
  destruct (successful_build_edges_sound Chain.scale Chain.locate
              Chain.matching_permutation Chain.net Chain.node_bbs
              Chain.with_linkers false mof E) as (st & Est & Hsound).
  exists mof, st. auto.
Defined.



(** On the chain with a flat cell the build stops at the inverse, although
    no edge is to be placed. *)
Example build_flat_chain :
  build Chain.scale Chain.locate Chain.matching_permutation
    (with_cell Chain.net ((10, 0, 0), (0, 10, 0), (0, 0, 0))%Q)
    Chain.node_bbs None false = Err LinAlgError.
Proof. vm_compute. reflexivity. Qed.

Lemma block_atoms_some {B : Type} `{BuildingBlock B}
    (located_bbs : list (option B)) :
  block_atoms located_bbs <> [] ->
  exists i blk, nth_error located_bbs i = Some (Some blk).
Proof.
  induction located_bbs as [| [b |] rest IH]; simpl; intros Hne.
  - congruence.
  - exists 0, b. reflexivity.
  - destruct (IH Hne) as (i & blk & Hi). exists (S i), blk. exact Hi.
Qed.

(** X5.  A build that returns a structure worked on a topology with at
    least one point and at least one edge, and located at least one block:
    the first offset is written at index 0, the blocks' bond arrays and
    atoms need a first block, and an empty list of inter-block bonds makes
    an array of one dimension that cannot be joined to the bond pairs of
    the blocks (lines 177, 189, 219-228). *)
Theorem build_needs_points_blocks_and_edges
    {B : Type} `{BuildingBlock B}
    (scale : Topology -> list B -> list (EdgeType * option B) -> Topology)
    (locate : LocalStructure -> B -> result (B * Q))
    (matching_permutation :
       LocalStructure -> LocalStructure -> result (list nat))
    (topology : Topology) (node_bbs : list B)
    (edge_bbs : option (list (EdgeType * option B))) (verbose : bool)
    (mof : MOF) :
  build scale locate matching_permutation topology node_bbs edge_bbs verbose
  = Ok mof ->
  exists st,
    assemble scale locate matching_permutation topology node_bbs edge_bbs
      = Ok st /\
    0 < n_all_points (st_topology st) /\
    edge_indices (st_topology st) <> [] /\
    exists i blk, nth_error (st_located st) i = Some (Some blk).
Proof.
  intros E. apply build_inv in E. destruct E as (st & Est & Efin).
  exists st. split; [exact Est |].
  apply assemble_inv in Est. destruct Est as (nodes & perms & invc & A).
  split.
  { pose proof (as_offsets A) as Ho. unfold index_offsets in Ho.
    unbind Ho as l El.
    destruct (n_all_points (st_topology st)); [discriminate | lia]. }
  unfold finish in Efin.
  unbind Efin as all_bonds Ebonds. unbind Efin as atoms Eatoms.
  split.
  - intros Hnil. pose proof (as_bonds A) as Hb. rewrite Hnil in Hb.
    simpl in Hb. inversion Hb as [Hb']. rewrite <- Hb' in Ebonds.
    discriminate.
  - apply block_atoms_some.
    destruct (block_atoms (st_located st)); [discriminate | congruence].
Qed.

Lemma build_needs_points_blocks_and_edges_chain :
  exists mof st,
    Chain.build_chain None = Ok mof /\
    Chain.assemble_chain None = Ok st /\
    edge_indices (st_topology st) <> [].
Proof.
  assert (E : exists mof, Chain.build_chain None = Ok mof).
  { eexists. vm_compute. reflexivity. }
  destruct E as (mof & E).
  destruct (build_needs_points_blocks_and_edges Chain.scale Chain.locate
              Chain.matching_permutation Chain.net Chain.node_bbs None
              false mof E) as (st & Est & _ & Hedges & _).
  exists mof, st. auto.
Defined.

(** ** Entries of the mapping without a template *)

Lemma place_edges_templates {B : Type} `{BuildingBlock B}
    (locate : LocalStructure -> B -> result (B * Q))
    topology c invc (items : list (EdgeType * option B)) permutations :
  forall located_bbs,
    place_edges locate topology c invc items permutations located_bbs =
    place_edges locate topology c invc (templates items) permutations
      located_bbs.
Proof.
  induction items as [| (t, [edge_bb |]) rest IH]; intros located_bbs;
    simpl.
  - reflexivity.
  - destruct (place_edges_of_type locate topology c invc t edge_bb
                permutations (edge_indices topology) located_bbs);
      simpl; [apply IH | reflexivity].
  - apply IH.
Qed.

(** X6.  A key of the mapping whose value is [None] is skipped like a key
    that is absent: two mappings that hold the same templates in the same
    order, and for which the scaler returns the same topology, give the
    same result, whatever [verbose] is. *)
Theorem none_entries_are_skipped
    {B : Type} `{BuildingBlock B}
    (scale : Topology -> list B -> list (EdgeType * option B) -> Topology)
    (locate : LocalStructure -> B -> result (B * Q))
    (matching_permutation :
       LocalStructure -> LocalStructure -> result (list nat))
    (topology : Topology) (node_bbs : list B)
    (edge_bbs edge_bbs' : option (list (EdgeType * option B)))
    (verbose verbose' : bool) :
  scale topology node_bbs (edge_items edge_bbs)
  = scale topology node_bbs (edge_items edge_bbs') ->
  templates (edge_items edge_bbs) = templates (edge_items edge_bbs') ->
  build scale locate matching_permutation topology node_bbs edge_bbs verbose
  = build scale locate matching_permutation topology node_bbs edge_bbs'
      verbose'.
Proof.
  intros Hscale Htemplates. unfold build. f_equal. unfold assemble.
  destruct (negb (n_node_types topology =? length node_bbs));
    [reflexivity |].
  rewrite <- Hscale.
  set (scaled := scale topology node_bbs (edge_items edge_bbs)).
  destruct (place_nodes locate scaled 0 node_bbs
              (repeat None (n_all_points scaled))) as [nodes | err];
    [simpl | reflexivity].
  destruct (node_permutations matching_permutation scaled nodes
              (node_indices scaled) (repeat None (n_all_points scaled)))
    as [perms | err]; [simpl | reflexivity].
  destruct (linalg_inv (cell scaled)) as [invc | err]; [simpl | reflexivity].
  rewrite (place_edges_templates locate scaled (cell scaled) invc
             (edge_items edge_bbs)).
  rewrite (place_edges_templates locate scaled (cell scaled) invc
             (edge_items edge_bbs')).
  rewrite Htemplates. reflexivity.
Qed.

Lemma none_entries_are_skipped_chain :
  Chain.build_chain (Some [((0, 1)%Z, None)]) = Chain.build_chain None.
Proof.
  apply none_entries_are_skipped; reflexivity.
Defined.

(* ------------------------------------------------------------------ *)
(** ** Templates and permutations of the located blocks *)

Section Dispatch.

Context {B : Type} `{BuildingBlock B}.
Variable locate : LocalStructure -> B -> result (B * Q).
Variable matching_permutation :
  LocalStructure -> LocalStructure -> result (list nat).

(** Induction over the node placements of one type, keeping the test of
    line 58. *)
Lemma place_nodes_of_type_typed_ind (P : list (option B) -> Prop)
    topology t node_bb indices :
  (forall l i l', In i indices ->
     Z.of_nat t = get_node_type topology i -> P l ->
     place_node locate topology node_bb l i = Ok l' -> P l') ->
  forall l l',
    place_nodes_of_type locate topology t node_bb indices l = Ok l' ->
    P l -> P l'.
Proof.
  induction indices as [| i rest IH]; intros Hstep l l' E HP; simpl in E.
  - inversion E; subst. exact HP.
  - assert (Hrest : forall l0 i0 l0', In i0 rest ->
              Z.of_nat t = get_node_type topology i0 -> P l0 ->
              place_node locate topology node_bb l0 i0 = Ok l0' -> P l0').
    { intros l0 i0 l0' Hi0. apply Hstep. now right. }
    destruct (Z.eqb_spec (Z.of_nat t) (get_node_type topology i)) as [Ht | _].
    + unbind E as l1 E1. apply (IH Hrest l1 l' E).
      apply (Hstep l i l1); [now left | exact Ht | exact HP | exact E1].
    + apply (IH Hrest l l' E HP).
Qed.

(** Induction over all node placements, keeping the position of the
    template in [node_bbs]. *)
Lemma place_nodes_typed_ind (P : list (option B) -> Prop) topology :
  forall node_bbs t0,
    (forall k node_bb l i l',
       nth_error node_bbs k = Some node_bb ->
       In i (node_indices topology) ->
       Z.of_nat (t0 + k) = get_node_type topology i -> P l ->
       place_node locate topology node_bb l i = Ok l' -> P l') ->
    forall l l',
      place_nodes locate topology t0 node_bbs l = Ok l' -> P l -> P l'.
Proof.
  induction node_bbs as [| node_bb rest IH]; intros t0 Hstep l l' E HP;
    simpl in E.
  - inversion E; subst. exact HP.
  - unbind E as l1 E1.
    apply (IH (S t0)) with (l := l1); [| exact E |].
    + intros k nb l0 i l0' Hk Hi Ht. apply (Hstep (S k) nb l0 i l0' Hk Hi).
      rewrite <- Ht. f_equal. lia.
    + apply (place_nodes_of_type_typed_ind P topology t0 node_bb
               (node_indices topology)) with (l := l); [| exact E1 | exact HP].
      intros l0 i l0' Hi Ht. apply (Hstep 0 node_bb l0 i l0' eq_refl Hi).
      rewrite Nat.add_0_r. exact Ht.
Qed.

(** After the node phase every block comes from the template of the type
    of its point. *)
Lemma place_nodes_dispatch topology node_bbs n (l : list (option B)) :
  place_nodes locate topology 0 node_bbs (repeat None n) = Ok l ->
  forall i blk, nth_error l i = Some (Some blk) ->
                node_placed_from locate topology node_bbs i blk.
Proof.
  intros E.
  apply (place_nodes_typed_ind
           (fun l0 => forall i blk, nth_error l0 i = Some (Some blk) ->
                        node_placed_from locate topology node_bbs i blk)
           topology node_bbs 0) with (l := repeat None n); [| exact E |].
  - intros k node_bb l0 i l0' Hk _ Ht Hl0 Hp j blk Hj.
    apply place_node_inv in Hp.
    destruct Hp as (ln & rms & ctr & Hloc & Hctr & Hs).
    destruct (Nat.eq_dec j i) as [-> | Hne].
    + rewrite (setitem_same _ _ _ Hs) in Hj. inversion Hj; subst.
      exists k, node_bb, ln, rms, ctr. simpl in Ht. auto.
    + rewrite (setitem_other _ _ Hs Hne) in Hj. now apply Hl0.
  - intros i blk Hi. apply nth_error_In, repeat_spec in Hi. discriminate.
Qed.

(** Edge placement writes blocks only: a point with a block keeps one. *)
Lemma place_edges_keeps_blocks topology c invc permutations items
    (nodes l : list (option B)) j :
  place_edges locate topology c invc items permutations nodes = Ok l ->
  (exists b, nth_error nodes j = Some (Some b)) ->
  exists b, nth_error l j = Some (Some b).
Proof.
  intros E.
  apply (@place_edges_ind _ _ locate
           (fun l0 => exists b, nth_error l0 j = Some (Some b))
           topology c invc permutations items); [| exact E].
  intros t edge_bb l0 e l0' _ _ _ Hl0 Hp.
  apply place_edge_inv in Hp.
  destruct Hp as (n1 & n2 & a1 & a2 & b1 & b2 & r1 & r2 & le & rms & Hp).
  destruct Hp as (_ & _ & _ & _ & _ & _ & _ & Hs).
  destruct (Nat.eq_dec j e) as [-> | Hne].
  - rewrite (setitem_same _ _ _ Hs). eauto.
  - rewrite (setitem_other _ _ Hs Hne). exact Hl0.
Qed.

Lemma match_block_inv topology blk permutations i p :
  match_block matching_permutation topology blk permutations i = Ok p ->
  exists perm,
    permutation_of matching_permutation topology i blk perm /\
    setitem permutations i (Some perm) = Ok p.
Proof.
  unfold match_block. intros E. unbind E as perm Eperm. eauto.
Qed.

(** The node permutations: every node index holds a block and gets the
    matcher's permutation for it; the other entries are kept. *)
Lemma node_permutations_spec topology (located_bbs : list (option B))
    indices :
  forall permutations p,
    node_permutations matching_permutation topology located_bbs indices
      permutations = Ok p ->
    length p = length permutations /\
    (forall j, ~ In j indices -> nth_error p j = nth_error permutations j) /\
    (forall i, In i indices ->
       exists blk perm,
         nth_error located_bbs i = Some (Some blk) /\
         permutation_of matching_permutation topology i blk perm /\
         nth_error p i = Some (Some perm)).
Proof.
  induction indices as [| i rest IH]; intros permutations p E; simpl in E.
  - inversion E; subst. repeat split; auto. intros i [].
  - unbind E as bb Ebb. unbind E as blk Eblk.
    destruct bb as [b |]; [| discriminate]. inversion Eblk; subst b.
    unbind E as p1 Ep1. apply getitem_ok in Ebb.
    apply match_block_inv in Ep1. destruct Ep1 as (perm & Hperm & Hset).
    destruct (IH _ _ E) as (Hlen & Hkeep & Hset').
    split; [rewrite Hlen; eapply setitem_length; eauto |].
    split.
    + intros j Hj. rewrite Hkeep by (intros Hin; apply Hj; now right).
      apply (setitem_other _ _ Hset). intros ->. apply Hj. now left.
    + intros k Hk. destruct (in_dec Nat.eq_dec k rest) as [Hin | Hout].
      * now apply Hset'.
      * destruct Hk as [<- | Hk]; [| contradiction].
        exists blk, perm. split; [exact Ebb |]. split; [exact Hperm |].
        rewrite (Hkeep i Hout). apply (setitem_same _ _ _ Hset).
Qed.

(** The edge permutations: every edge index with a block gets the
    matcher's permutation for it; entries of other points, and of points
    without a block, are kept. *)
Lemma edge_permutations_spec topology (located_bbs : list (option B))
    indices :
  forall permutations p,
    edge_permutations matching_permutation topology located_bbs indices
      permutations = Ok p ->
    length p = length permutations /\
    (forall j, ~ In j indices \/ nth_error located_bbs j = Some None ->
       nth_error p j = nth_error permutations j) /\
    (forall i blk, In i indices ->
       nth_error located_bbs i = Some (Some blk) ->
       exists perm,
         permutation_of matching_permutation topology i blk perm /\
         nth_error p i = Some (Some perm)).
Proof.
  induction indices as [| i rest IH]; intros permutations p E; simpl in E.
  - inversion E; subst. repeat split; auto. intros i blk [].
  - unbind E as bb Ebb. apply getitem_ok in Ebb.
    destruct bb as [blk |].
    + unbind E as p1 Ep1.
      apply match_block_inv in Ep1. destruct Ep1 as (perm & Hperm & Hset).
      destruct (IH _ _ E) as (Hlen & Hkeep & Hset').
      split; [rewrite Hlen; eapply setitem_length; eauto |].
      split.
      * intros j Hj.
        assert (Hji : j <> i).
        { intros ->. destruct Hj as [Hj | Hj]; [apply Hj; now left |].
          congruence. }
        rewrite Hkeep.
        -- apply (setitem_other _ _ Hset Hji).
        -- destruct Hj as [Hj | Hj]; [left | now right].
           intros Hin. apply Hj. now right.
      * intros k b Hk Hb.
        destruct (in_dec Nat.eq_dec k rest) as [Hin | Hout].
        -- now apply Hset'.
        -- destruct Hk as [<- | Hk]; [| contradiction].
           rewrite Ebb in Hb. inversion Hb; subst b.
           exists perm. split; [exact Hperm |].
           rewrite (Hkeep i (or_introl Hout)).
           apply (setitem_same _ _ _ Hset).
    + destruct (IH _ _ E) as (Hlen & Hkeep & Hset').
      split; [exact Hlen |]. split.
      * intros j Hj. apply Hkeep.
        destruct Hj as [Hj | Hj]; [| now right].
        destruct (Nat.eq_dec j i) as [-> | Hne]; [now right | left].
        intros Hin. apply Hj. now right.
      * intros k b Hk Hb. destruct Hk as [<- | Hk]; [congruence |].
        now apply Hset'.
Qed.

End Dispatch.

(** X7.  After a successful build every node point [i] (one that is not
    also an edge point) holds a block: the one the locator returned for the
    slot [topology.local_structure(i)] and the template
    [node_bbs[topology.get_node_type(i)]], moved to
    [topology.atoms[i].position].  In particular the type of every node
    point is the position of a template in [node_bbs]. *)
Theorem node_blocks_come_from_their_type
    {B : Type} `{BuildingBlock B}
    (scale : Topology -> list B -> list (EdgeType * option B) -> Topology)
    (locate : LocalStructure -> B -> result (B * Q))
    (matching_permutation :
       LocalStructure -> LocalStructure -> result (list nat))
    (topology : Topology) (node_bbs : list B)
    (edge_bbs : option (list (EdgeType * option B))) (st : BuildState) :
  assemble scale locate matching_permutation topology node_bbs edge_bbs
    = Ok st ->
  forall i,
    In i (node_indices (st_topology st)) ->
    ~ In i (edge_indices (st_topology st)) ->
    exists blk,
      nth_error (st_located st) i = Some (Some blk) /\
      node_placed_from locate (st_topology st) node_bbs i blk.
Proof.
  intros Est i Hnode Hedge.
  apply assemble_inv in Est. destruct Est as (nodes & perms & invc & A).
  destruct (node_permutations_spec matching_permutation _ _ _ _ _
              (as_node_permutations A)) as (_ & _ & Hset).
  destruct (Hset i Hnode) as (blk & perm & Hblk & _).
  destruct (place_edges_centred _ _ _ _ _ _ _ (as_place_edges A))
    as (Hagree & _).
  exists blk. split.
  - rewrite (Hagree i Hedge). exact Hblk.
  - eapply place_nodes_dispatch. exact (as_place_nodes A). exact Hblk.
Qed.

Lemma node_blocks_come_from_their_type_chain :
  exists st blk,
    Chain.assemble_chain Chain.with_linkers = Ok st /\
    nth_error (st_located st) 1 = Some (Some blk) /\
    node_placed_from Chain.locate (st_topology st) Chain.node_bbs 1 blk.
Proof.
  assert (E : exists st,
             Chain.assemble_chain Chain.with_linkers = Ok st /\
             In 1 (node_indices (st_topology st)) /\
             ~ In 1 (edge_indices (st_topology st))).
  { eexists. split; [vm_compute; reflexivity |].
    split; [simpl; auto |].
    simpl. intros [Hn | [Hn | []]]; discriminate. }
  destruct E as (st & E & Hnode & Hedge).
  destruct (node_blocks_come_from_their_type Chain.scale Chain.locate
              Chain.matching_permutation Chain.net Chain.node_bbs
              Chain.with_linkers st E 1 Hnode Hedge) as (blk & Hblk & Hfrom).
  exists st, blk. auto.
Defined.

(** X8.  After a successful build the permutations mirror the located
    blocks: a point has no permutation exactly when it has no block, and
    the permutation of a point with a block is the one
    [matching_permutation] gives for the slot of the point in the topology
    and the local structure of that block. *)
Theorem permutations_mirror_blocks
    {B : Type} `{BuildingBlock B}
    (scale : Topology -> list B -> list (EdgeType * option B) -> Topology)
    (locate : LocalStructure -> B -> result (B * Q))
    (matching_permutation :
       LocalStructure -> LocalStructure -> result (list nat))
    (topology : Topology) (node_bbs : list B)
    (edge_bbs : option (list (EdgeType * option B))) (st : BuildState) :
  assemble scale locate matching_permutation topology node_bbs edge_bbs
    = Ok st ->
  length (st_permutations st) = n_all_points (st_topology st) /\
  forall i, i < n_all_points (st_topology st) ->
    (nth_error (st_located st) i = Some None <->
     nth_error (st_permutations st) i = Some None) /\
    (forall blk, nth_error (st_located st) i = Some (Some blk) ->
       exists p,
         permutation_of matching_permutation (st_topology st) i blk p /\
         nth_error (st_permutations st) i = Some (Some p)).
Proof.
  intros Est.
  apply assemble_inv in Est. destruct Est as (nodes & perms & invc & A).
  set (T := st_topology st) in *.
  destruct (node_permutations_spec matching_permutation _ _ _ _ _
              (as_node_permutations A)) as (Hlen1 & Hkeep1 & Hset1).
  destruct (edge_permutations_spec matching_permutation _ _ _ _ _
              (as_edge_permutations A)) as (Hlen2 & Hkeep2 & Hset2).
  destruct (place_edges_centred _ _ _ _ _ _ _ (as_place_edges A))
    as (Hagree & _).
  assert (HlenL : length (st_located st) = n_all_points T).
  { rewrite (place_edges_length _ _ _ _ _ _ _ (as_place_edges A)).
    rewrite (place_nodes_length _ _ _ _ _ (as_place_nodes A)).
    apply repeat_length. }
  assert (Hblock : forall i blk,
            nth_error (st_located st) i = Some (Some blk) ->
            exists p,
              permutation_of matching_permutation T i blk p /\
              nth_error (st_permutations st) i = Some (Some p)).
  { intros i blk Hblk.
    destruct (in_dec Nat.eq_dec i (edge_indices T)) as [Hedge | Hedge].
    - now apply Hset2.
    - rewrite (Hagree i Hedge) in Hblk.
      destruct (in_dec Nat.eq_dec i (node_indices T)) as [Hnode | Hnode].
      + destruct (Hset1 i Hnode) as (blk' & p & Hblk' & Hp & Hpi).
        rewrite Hblk in Hblk'. inversion Hblk'; subst blk'.
        exists p. split; [exact Hp |].
        rewrite (Hkeep2 i (or_introl Hedge)). exact Hpi.
      + exfalso.
        rewrite (place_nodes_other _ _ _ _ _ _ (as_place_nodes A) Hnode)
          in Hblk.
        apply nth_error_In, repeat_spec in Hblk. discriminate. }
  split; [rewrite Hlen2, Hlen1; apply repeat_length |].
  intros i Hi. split; [| apply Hblock]. split.
  - intros Hnone.
    rewrite (Hkeep2 i (or_intror Hnone)).
    assert (Hnode : ~ In i (node_indices T)).
    { intros Hnode. destruct (Hset1 i Hnode) as (blk & p & Hblk & _).
      destruct (place_edges_keeps_blocks locate _ _ _ _ _ _ _ i
                  (as_place_edges A) (ex_intro _ blk Hblk)) as (b & Hb).
      congruence. }
    rewrite (Hkeep1 i Hnode). apply nth_error_repeat. exact Hi.
  - intros Hnone.
    destruct (nth_error (st_located st) i) as [[blk |] |] eqn:HL.
    + destruct (Hblock i blk HL) as (p & _ & Hp). congruence.
    + reflexivity.
    + exfalso. apply nth_error_None in HL. lia.
Qed.

Lemma permutations_mirror_blocks_chain :
  exists st,
    Chain.assemble_chain Chain.reversed_key = Ok st /\
    length (st_permutations st) = n_all_points (st_topology st) /\
    forall i, i < n_all_points (st_topology st) ->
      (nth_error (st_located st) i = Some None <->
       nth_error (st_permutations st) i = Some None) /\
      (forall blk, nth_error (st_located st) i = Some (Some blk) ->
         exists p,
           permutation_of Chain.matching_permutation (st_topology st) i blk p
           /\ nth_error (st_permutations st) i = Some (Some p)).
Proof.
  assert (E : exists st, Chain.assemble_chain Chain.reversed_key = Ok st).
  { eexists. vm_compute. reflexivity. }
  destruct E as (st & E).
  exists st. split; [exact E |].
  exact (permutations_mirror_blocks Chain.scale Chain.locate
           Chain.matching_permutation Chain.net Chain.node_bbs
           Chain.reversed_key st E).
Defined.

(* ------------------------------------------------------------------ *)
(** ** Global atom indices *)

Section GlobalIndices.

Context {B : Type} `{BuildingBlock B}.

Lemma fold_left_app_concat {A : Type} (ls : list (list A)) :
  forall acc, fold_left (@app A) ls acc = acc ++ concat ls.
Proof.
  induction ls as [| l rest IH]; intros acc; simpl.
  - now rewrite app_nil_r.
  - rewrite IH. now rewrite app_assoc.
Qed.

(** What the output container receives besides the bonds. *)
Lemma finish_atoms (st : BuildState (B := B)) mof :
  finish st = Ok mof ->
  mof_positions mof = concat (block_atoms (st_located st)) /\
  mof_cell mof = cell (st_topology st) /\
  mof_pbc mof = true.
Proof.
  unfold finish. intros E. unbind E as all_bonds Eb. unbind E as atoms Ea.
  inversion E; subst; clear E. simpl.
  destruct (block_atoms (st_located st)) as [| first others];
    [discriminate |].
  inversion Ea; subst. rewrite fold_left_app_concat. auto.
Qed.

Lemma block_atoms_app (l1 l2 : list (option B)) :
  block_atoms (l1 ++ l2) = block_atoms l1 ++ block_atoms l2.
Proof.
  induction l1 as [| [b |] rest IH]; simpl; [reflexivity | | exact IH].
  now rewrite IH.
Qed.

Lemma block_atoms_length (l : list (option B)) :
  length (concat (block_atoms l)) = list_sum (map atom_delta l).
Proof.
  rewrite length_concat. apply block_atoms_total.
Qed.

(** The atoms of the block at point [i] start, in the concatenation, after
    the atoms of the blocks of the points before [i]. *)
Lemma block_atoms_at (l : list (option B)) i blk a :
  nth_error l i = Some (Some blk) ->
  a < n_atoms blk ->
  nth_error (concat (block_atoms l))
    (list_sum (map atom_delta (firstn i l)) + a)
  = nth_error (atoms_positions blk) a.
Proof.
  intros Hi Ha.
  destruct (nth_error_split l i Hi) as (l1 & l2 & Hl & Hlen).
  assert (Hfirst : firstn i l = l1).
  { rewrite Hl, <- Hlen. rewrite firstn_app, Nat.sub_diag, firstn_all.
    simpl. now rewrite app_nil_r. }
  rewrite Hfirst, Hl, block_atoms_app. simpl block_atoms.
  rewrite concat_app. simpl concat.
  rewrite nth_error_app2 by (rewrite block_atoms_length; lia).
  rewrite block_atoms_length.
  replace (list_sum (map atom_delta l1) + a - list_sum (map atom_delta l1))
    with a by lia.
  apply nth_error_app1. exact Ha.
Qed.

(** The atoms of a located block end before the total. *)
Lemma block_range_below_total (l : list (option B)) i blk :
  nth_error l i = Some (Some blk) ->
  list_sum (map atom_delta (firstn i l)) + n_atoms blk <= total_atoms l.
Proof.
  intros Hi.
  assert (Hlt : i < length l) by (apply nth_error_Some; congruence).
  pose proof (@prefix_sum_step _ _ l i Hlt) as Hstep.
  rewrite (nth_error_nth _ _ None Hi) in Hstep.
  change (atom_delta (Some blk)) with (n_atoms blk) in Hstep.
  pose proof (@prefix_sum_mono _ _ l (S i) (length l)) as Hmono.
  rewrite firstn_all in Hmono. unfold total_atoms.
  specialize (Hmono ltac:(lia) ltac:(lia)). lia.
Qed.

End GlobalIndices.

(** X9.  The atoms of a built structure are the atoms of the located
    blocks, concatenated in the order of the points, under the cell of the
    scaled topology and with periodic boundaries on; the offset of a point
    is where the atoms of its block start: atom [a] of the block at point
    [i] is atom [index_offsets[i] + a] of the structure. *)
Theorem atoms_follow_offsets
    {B : Type} `{BuildingBlock B}
    (scale : Topology -> list B -> list (EdgeType * option B) -> Topology)
    (locate : LocalStructure -> B -> result (B * Q))
    (matching_permutation :
       LocalStructure -> LocalStructure -> result (list nat))
    (topology : Topology) (node_bbs : list B)
    (edge_bbs : option (list (EdgeType * option B))) (verbose : bool)
    (mof : MOF) :
  build scale locate matching_permutation topology node_bbs edge_bbs verbose
  = Ok mof ->
  exists st,
    assemble scale locate matching_permutation topology node_bbs edge_bbs
      = Ok st /\
    mof_positions mof = concat (block_atoms (st_located st)) /\
    mof_cell mof = cell (st_topology st) /\
    mof_pbc mof = true /\
    forall i blk a,
      nth_error (st_located st) i = Some (Some blk) ->
      a < n_atoms blk ->
      nth_error (mof_positions mof) (offset_at (st_offsets st) i + a)
      = nth_error (atoms_positions blk) a.
Proof.
  intros E. apply build_inv in E. destruct E as (st & Est & Efin).
  exists st. split; [exact Est |].
  apply assemble_inv in Est. destruct Est as (nodes & perms & invc & A).
  destruct (finish_atoms st mof Efin) as (Hpos & Hcell & Hpbc).
  split; [exact Hpos |]. split; [exact Hcell |]. split; [exact Hpbc |].
  intros i blk a Hi Ha.
  assert (Hn : length (st_located st) = n_all_points (st_topology st)).
  { rewrite (place_edges_length _ _ _ _ _ _ _ (as_place_edges A)).
    rewrite (place_nodes_length _ _ _ _ _ (as_place_nodes A)).
    apply repeat_length. }
  assert (Hlt : i < n_all_points (st_topology st)).
  { rewrite <- Hn. apply nth_error_Some. congruence. }
  rewrite (offset_at_prefix _ (as_offsets A) Hn Hlt), Hpos.
  now apply block_atoms_at.
Qed.

Lemma atoms_follow_offsets_chain :
  exists mof st,
    Chain.build_chain Chain.with_linkers = Ok mof /\
    Chain.assemble_chain Chain.with_linkers = Ok st /\
    mof_positions mof = concat (block_atoms (st_located st)).
Proof.
  assert (E : exists mof, Chain.build_chain Chain.with_linkers = Ok mof).
  { eexists. vm_compute. reflexivity. }
  destruct E as (mof & E).
  destruct (atoms_follow_offsets Chain.scale Chain.locate
              Chain.matching_permutation Chain.net Chain.node_bbs
              Chain.with_linkers false mof E) as (st & Est & Hpos & _).
  exists mof, st. auto.
Defined.

(* ------------------------------------------------------------------ *)
(** ** Bonds name atoms of the structure *)

Section BondRanges.

Context {B : Type} `{BuildingBlock B}.

Lemma offset_at_some (offsets : list (option nat)) i o :
  nth_error offsets i = Some (Some o) -> offset_at offsets i = o.
Proof. unfold offset_at. now intros ->. Qed.

Lemma reordered_in (arr perm : list nat) x :
  Forall (fun k => k < length arr) perm ->
  In x (reordered arr perm) -> In x arr.
Proof.
  unfold reordered. intros Hrange Hx. apply in_map_iff in Hx.
  destruct Hx as (k & <- & Hk). apply nth_In.
  rewrite Forall_forall in Hrange. now apply Hrange.
Qed.

Lemma Forall2_in_right {X Y : Type} (R : X -> Y -> Prop) l l' y :
  Forall2 R l l' -> In y l' -> exists x, In x l /\ R x y.
Proof.
  induction 1 as [| x0 y0 l0 l0' HR _ IH]; intros Hy; [destruct Hy |].
  destruct Hy as [<- | Hy].
  - exists x0. split; [now left | exact HR].
  - destruct (IH Hy) as (x & Hx & HRx). exists x. split; [now right | auto].
Qed.

(** Every intrinsic bond of the structure is a bond of a located block,
    shifted by the offset of the block's point. *)
Lemma block_bonds_in (located_bbs : list (option B)) :
  forall offsets arrays,
    block_bonds offsets located_bbs = Ok arrays ->
    forall bond, In bond (concat arrays) ->
      exists i blk o ab,
        nth_error located_bbs i = Some (Some blk) /\
        nth_error offsets i = Some (Some o) /\
        In ab (bonds blk) /\
        bond = (fst ab + o, snd ab + o).
Proof.
  induction located_bbs as [| [b |] rest IH]; intros [| off os] arrays E bond
    Hbond; simpl in E; try (inversion E; subst; destruct Hbond).
  - destruct off as [o |]; [| discriminate]. unbind E as more Emore.
    inversion E; subst; clear E. simpl in Hbond.
    apply in_app_or in Hbond. destruct Hbond as [Hhere | Hlater].
    + unfold shift_bonds in Hhere. apply in_map_iff in Hhere.
      destruct Hhere as (ab & <- & Hab).
      exists 0, b, o, ab. auto.
    + destruct (IH os more Emore bond Hlater)
        as (i & blk & o' & ab & Hi & Ho & Hab & ->).
      exists (S i), blk, o', ab. auto.
  - destruct (IH os arrays E bond Hbond)
      as (i & blk & o' & ab & Hi & Ho & Hab & ->).
    exists (S i), blk, o', ab. auto.
Qed.

(** The matched atoms of an edge are connection points of the blocks at
    its endpoints. *)
Lemma matched_atoms_are_connection_points topology
    (located_bbs : list (option B)) permutations e a1 a2 n1 n2 :
  find_matched_atom_indices topology located_bbs permutations e
    = Ok (a1, a2) ->
  nth_error (neighbor_list topology) e = Some [n1; n2] ->
  exists blk1 blk2,
    nth_error located_bbs (index n1) = Some (Some blk1) /\
    In a1 (connection_point_indices blk1) /\
    nth_error located_bbs (index n2) = Some (Some blk2) /\
    In a2 (connection_point_indices blk2).
Proof.
  intros E He. apply find_matched_atom_indices_inv in E.
  destruct E as (m1 & m2 & ns1 & ns2 & bb1 & bb2 & k1 & k2 & E).
  destruct E as (He' & Hb1 & Hb2 & _ & _ & _ & _ & M1 & M2).
  rewrite He in He'. inversion He'; subst m1 m2.
  apply matched_atom_inv in M1, M2.
  destruct M1 as (blk1 & p1 & -> & _ & _ & _ & _ & Hin1).
  destruct M2 as (blk2 & p2 & -> & _ & _ & _ & _ & Hin2).
  exists blk1, blk2. auto.
Qed.

(** A local atom index shifted by the offset of its block falls in the
    range of the block, below the number of atoms of the structure. *)
Lemma shifted_index_in_range n (located_bbs : list (option B)) offsets
    i blk o a :
  index_offsets n located_bbs = Ok offsets ->
  length located_bbs = n ->
  nth_error located_bbs i = Some (Some blk) ->
  nth_error offsets i = Some (Some o) ->
  a < n_atoms blk ->
  in_block_range offsets located_bbs i (a + o) /\
  a + o < total_atoms located_bbs.
Proof.
  intros Hoffs Hn Hi Ho Ha.
  assert (Hlt : i < n).
  { rewrite <- Hn. apply nth_error_Some. congruence. }
  pose proof (offset_at_prefix _ Hoffs Hn Hlt) as Hat.
  rewrite (offset_at_some _ _ _ Ho) in Hat.
  pose proof (block_range_below_total located_bbs i blk Hi) as Htot.
  split; [| lia].
  exists blk. split; [exact Hi |].
  rewrite (offset_at_some _ _ _ Ho). lia.
Qed.

End BondRanges.

(** X10.  When the connection points and the intrinsic bonds of every
    located block name atoms of that block, every bond of the built
    structure names atoms of the structure: each end of a bond falls in
    the global index range of a located block, hence below the number of
    atoms. *)
Theorem bonds_name_atoms
    {B : Type} `{BuildingBlock B}
    (scale : Topology -> list B -> list (EdgeType * option B) -> Topology)
    (locate : LocalStructure -> B -> result (B * Q))
    (matching_permutation :
       LocalStructure -> LocalStructure -> result (list nat))
    (topology : Topology) (node_bbs : list B)
    (edge_bbs : option (list (EdgeType * option B)))
    (st : BuildState) (mof : MOF) :
  assemble scale locate matching_permutation topology node_bbs edge_bbs
    = Ok st ->
  finish st = Ok mof ->
  (forall i blk, nth_error (st_located st) i = Some (Some blk) ->
                 block_well_formed blk) ->
  Forall (bond_in_range (st_offsets st) (st_located st)
            (length (mof_positions mof)))
    (mof_bonds mof).
Proof.
  intros Est Efin Hwf.
  apply assemble_inv in Est. destruct Est as (nodes & perms & invc & A).
  assert (Hn : length (st_located st) = n_all_points (st_topology st)).
  { rewrite (place_edges_length _ _ _ _ _ _ _ (as_place_edges A)).
    rewrite (place_nodes_length _ _ _ _ _ (as_place_nodes A)).
    apply repeat_length. }
  assert (Hshift : forall i blk o a,
            nth_error (st_located st) i = Some (Some blk) ->
            nth_error (st_offsets st) i = Some (Some o) ->
            a < n_atoms blk ->
            in_block_range (st_offsets st) (st_located st) i (a + o) /\
            a + o < length (mof_positions mof)).
  { intros i blk o a Hi Ho Ha.
    rewrite (finish_atom_count _ Efin).
    exact (shifted_index_in_range _ _ _ i blk o a (as_offsets A) Hn Hi Ho Ha). }
  assert (Hcp : forall i blk a,
            nth_error (st_located st) i = Some (Some blk) ->
            In a (connection_point_indices blk) -> a < n_atoms blk).
  { intros i blk a Hi Ha. destruct (Hwf i blk Hi) as (Hc & _).
    rewrite Forall_forall in Hc. now apply Hc. }
  rewrite (finish_bonds _ Efin). apply Forall_app. split.
  - destruct (as_bb_bonds A) as (arrays & Harrays & Hconcat).
    apply concatenate_ok in Hconcat. rewrite Hconcat.
    apply Forall_forall. intros bond Hbond.
    destruct (block_bonds_in _ _ _ Harrays bond Hbond)
      as (i & blk & o & ab & Hi & Ho & Hab & ->).
    destruct (Hwf i blk Hi) as (_ & Hb).
    rewrite Forall_forall in Hb. destruct (Hb ab Hab) as (H1 & H2).
    destruct (Hshift i blk o (fst ab) Hi Ho H1) as (R1 & T1).
    destruct (Hshift i blk o (snd ab) Hi Ho H2) as (R2 & T2).
    unfold bond_in_range. simpl.
    split; [eauto | split; [eauto | split; assumption]].
  - destruct (connect_edges_emitted _ _ _ _ _ (as_bonds A))
      as (per_edge & Hper & ->).
    apply Forall_forall. intros bond Hbond.
    apply in_concat in Hbond. destruct Hbond as (bs & Hbs & Hbond).
    destruct (Forall2_in_right _ _ _ _ Hper Hbs) as (j & _ & Hem).
    destruct Hem as (a1 & a2 & n1 & n2 & o1 & o2 & Hm & Hrec & Ho1 & Ho2 & Hb).
    destruct (matched_atoms_are_connection_points _ _ _ _ _ _ _ _ Hm Hrec)
      as (blk1 & blk2 & Hb1 & Hin1 & Hb2 & Hin2).
    destruct (Hshift _ _ _ _ Hb1 Ho1 (Hcp _ _ _ Hb1 Hin1)) as (R1 & T1).
    destruct (Hshift _ _ _ _ Hb2 Ho2 (Hcp _ _ _ Hb2 Hin2)) as (R2 & T2).
    destruct (nth_error (st_located st) j) as [[blk |] |] eqn:Hj.
    + destruct Hb as (p & e1 & e2 & oj & Hp & Hrange & Hre & Hoj & ->).
      assert (He1 : In e1 (connection_point_indices blk)).
      { apply (reordered_in _ p); [exact Hrange |]. rewrite Hre. now left. }
      assert (He2 : In e2 (connection_point_indices blk)).
      { apply (reordered_in _ p); [exact Hrange |]. rewrite Hre.
        right. now left. }
      destruct (Hshift _ _ _ _ Hj Hoj (Hcp _ _ _ Hj He1)) as (S1 & U1).
      destruct (Hshift _ _ _ _ Hj Hoj (Hcp _ _ _ Hj He2)) as (S2 & U2).
      destruct Hbond as [<- | [<- | []]]; unfold bond_in_range; simpl;
        (split; [eauto | split; [eauto | split; assumption]]).
    + subst bs. destruct Hbond as [<- | []].
      unfold bond_in_range. simpl.
      split; [eauto | split; [eauto | split; assumption]].
    + destruct Hb.
Qed.

Lemma bonds_name_atoms_chain :
  exists st mof,
    Chain.assemble_chain Chain.with_linkers = Ok st /\
    finish st = Ok mof /\
    Forall (bond_in_range (st_offsets st) (st_located st)
              (length (mof_positions mof)))
      (mof_bonds mof).
Proof.
  assert (E : exists st mof,
             Chain.assemble_chain Chain.with_linkers = Ok st /\
             finish st = Ok mof /\
             forall i blk, nth_error (st_located st) i = Some (Some blk) ->
                           block_well_formed blk).
  { do 2 eexists. split; [vm_compute; reflexivity |].
    split; [vm_compute; reflexivity |].
    intros i blk Hi.
    destruct i as [| [| [| [| i]]]]; simpl in Hi;
      try (destruct i; discriminate);
      inversion Hi; subst blk;
      (split; repeat constructor; simpl; lia). }
  destruct E as (st & mof & Est & Efin & Hwf).
  exists st, mof. split; [exact Est |]. split; [exact Efin |].
  exact (bonds_name_atoms Chain.scale Chain.locate
           Chain.matching_permutation Chain.net Chain.node_bbs
           Chain.with_linkers st mof Est Efin Hwf).
Defined.

(* ------------------------------------------------------------------ *)
(** ** The two calls of [find_matched_atom_indices] *)

Section Frame.

Context {B : Type} `{BuildingBlock B}.

Lemma matched_atom_frame permutations permutations' i (bb : option B) o :
  nth_error permutations i = nth_error permutations' i ->
  matched_atom permutations i bb o = matched_atom permutations' i bb o.
Proof.
  intros Hp. unfold matched_atom, getitem. now rewrite Hp.
Qed.

Lemma scan_neighbors_frame permutations permutations' i (bb : option B)
    nk ns :
  nth_error permutations i = nth_error permutations' i ->
  forall o,
    scan_neighbors permutations i bb nk o ns
    = scan_neighbors permutations' i bb nk o ns.
Proof.
  intros Hp. induction ns as [| n rest IH]; intros o; simpl; [reflexivity |].
  rewrite (matched_atom_frame permutations permutations' i bb o Hp).
  now rewrite IH.
Qed.

(** The matched atoms of an edge depend on the located blocks and the
    permutations at the two endpoints only. *)
Lemma find_matched_atom_indices_frame topology
    (located_bbs located_bbs' : list (option B))
    permutations permutations' e n1 n2 :
  nth_error (neighbor_list topology) e = Some [n1; n2] ->
  nth_error located_bbs (index n1) = nth_error located_bbs' (index n1) ->
  nth_error located_bbs (index n2) = nth_error located_bbs' (index n2) ->
  nth_error permutations (index n1) = nth_error permutations' (index n1) ->
  nth_error permutations (index n2) = nth_error permutations' (index n2) ->
  find_matched_atom_indices topology located_bbs permutations e
  = find_matched_atom_indices topology located_bbs' permutations' e.
Proof.
  intros He HL1 HL2 HP1 HP2. unfold find_matched_atom_indices.
  apply edge_records_ok in He. rewrite He. simpl.
  unfold getitem at 1 2. unfold getitem at 3 4. rewrite HL1, HL2.
  destruct (nth_error located_bbs' (index n1)) as [bb1 |]; [| reflexivity].
  destruct (nth_error located_bbs' (index n2)) as [bb2 |]; [| reflexivity].
  simpl.
  destruct (getitem (neighbor_list topology) (index n1)) as [ns1 | err];
    [| reflexivity]. simpl.
  rewrite (scan_neighbors_frame permutations permutations' (index n1) bb1 n1
             ns1 HP1 0).
  destruct (scan_neighbors permutations' (index n1) bb1 n1 0 ns1)
    as [r1 | err]; [| reflexivity]. simpl.
  destruct (getitem (neighbor_list topology) (index n2)) as [ns2 | err];
    [| reflexivity]. simpl.
  rewrite (scan_neighbors_frame permutations permutations' (index n2) bb2 n2
             ns2 HP2 0).
  reflexivity.
Qed.

End Frame.

(** X11.  In a successful build, on an edge whose two endpoints are not
    edge points themselves, the call of [find_matched_atom_indices] that
    places the edge block (line 138) and the call that bonds it (line 196)
    return the same pair of atoms: the block found on an edge point at the
    end is centred on the middle of the minimum-image segment between the
    very atoms, read in the final state, that the bonds of the edge are
    attached to. *)
Theorem edge_block_sits_between_bonded_atoms
    {B : Type} `{BuildingBlock B}
    (scale : Topology -> list B -> list (EdgeType * option B) -> Topology)
    (locate : LocalStructure -> B -> result (B * Q))
    (matching_permutation :
       LocalStructure -> LocalStructure -> result (list nat))
    (topology : Topology) (node_bbs : list B)
    (edge_bbs : option (list (EdgeType * option B))) (st : BuildState)
    (e : nat) (blk : B) (n1 n2 : Neighbor) :
  assemble scale locate matching_permutation topology node_bbs edge_bbs
    = Ok st ->
  ~ In e (node_indices (st_topology st)) ->
  nth_error (st_located st) e = Some (Some blk) ->
  nth_error (neighbor_list (st_topology st)) e = Some [n1; n2] ->
  ~ In (index n1) (edge_indices (st_topology st)) ->
  ~ In (index n2) (edge_indices (st_topology st)) ->
  exists invc center located_edge,
    linalg_inv (cell (st_topology st)) = Ok invc /\
    edge_midpoint (st_topology st) (cell (st_topology st)) invc
      (st_located st) (st_permutations st) e center /\
    blk = set_center center located_edge.
Proof.
  intros Est Hnode Hblk Hrec Hi1 Hi2.
  apply assemble_inv in Est. destruct Est as (nodes & perms & invc & A).
  destruct (place_edges_centred _ _ _ _ _ _ _ (as_place_edges A))
    as (Hagree & Hblocks).
  pose proof (edge_permutations_other _ _ _ _ _ (as_edge_permutations A))
    as Hperms.
  destruct (Hblocks e blk Hblk) as [Hold | Hnew].
  { exfalso.
    rewrite (place_nodes_other _ _ _ _ _ _ (as_place_nodes A) Hnode) in Hold.
    apply nth_error_In, repeat_spec in Hold. discriminate. }
  destruct Hnew as (located_at & center & le & Hat & Hmid & ->).
  exists invc, center, le. split; [exact (as_inverse A) |].
  split; [| reflexivity].
  destruct Hmid as (m1 & m2 & a1 & a2 & blk1 & blk2 & r1 & r2 & Hmid).
  destruct Hmid as (Hrec' & Hm & Hb1 & Hb2 & Hr1 & Hr2 & Hc).
  rewrite Hrec in Hrec'. inversion Hrec'; subst m1 m2.
  assert (HL1 : nth_error located_at (index n1)
                = nth_error (st_located st) (index n1)).
  { rewrite (Hat _ Hi1). symmetry. now apply Hagree. }
  assert (HL2 : nth_error located_at (index n2)
                = nth_error (st_located st) (index n2)).
  { rewrite (Hat _ Hi2). symmetry. now apply Hagree. }
  exists n1, n2, a1, a2, blk1, blk2, r1, r2.
  split; [exact Hrec |]. split.
  - rewrite <- Hm. symmetry.
    apply (find_matched_atom_indices_frame (st_topology st) located_at
             (st_located st) perms (st_permutations st) e n1 n2 Hrec HL1 HL2
             (Hperms _ Hi1) (Hperms _ Hi2)).
  - rewrite <- HL1, <- HL2. auto.
Qed.

Lemma edge_block_sits_between_bonded_atoms_chain :
  exists st blk invc center located_edge,
    Chain.assemble_chain Chain.with_linkers = Ok st /\
    nth_error (st_located st) 3 = Some (Some blk) /\
    linalg_inv (cell (st_topology st)) = Ok invc /\
    edge_midpoint (st_topology st) (cell (st_topology st)) invc
      (st_located st) (st_permutations st) 3 center /\
    blk = set_center center located_edge.
Proof.
  assert (E : exists st blk,
             Chain.assemble_chain Chain.with_linkers = Ok st /\
             nth_error (st_located st) 3 = Some (Some blk) /\
             nth_error (neighbor_list (st_topology st)) 3
             = Some [mkNeighbor 1 (Chain.x_axis (- (5 # 2))%Q);
                     mkNeighbor 0 (Chain.x_axis (5 # 2)%Q)] /\
             ~ In 3 (node_indices (st_topology st)) /\
             ~ In 1 (edge_indices (st_topology st)) /\
             ~ In 0 (edge_indices (st_topology st))).
  { do 2 eexists. split; [vm_compute; reflexivity |].
    split; [vm_compute; reflexivity |].
    split; [reflexivity |].
    simpl. repeat split; intros [Hn | [Hn | []]]; discriminate. }
  destruct E as (st & blk & E & Hblk & Hrec & Hnode & H1 & H0).
  destruct (edge_block_sits_between_bonded_atoms Chain.scale Chain.locate
              Chain.matching_permutation Chain.net Chain.node_bbs
              Chain.with_linkers st 3 blk _ _ E Hnode Hblk Hrec H1 H0)
    as (invc & center & le & Hinv & Hmid & Heq).
  exists st, blk, invc, center, le. auto.
Defined.

(* ------------------------------------------------------------------ *)
(** ** Templates of the edge blocks, and points without a role *)

Lemma place_edges_dispatch {B : Type} `{BuildingBlock B}
    (locate : LocalStructure -> B -> result (B * Q))
    topology c invc permutations items (nodes l : list (option B)) :
  place_edges locate topology c invc items permutations nodes = Ok l ->
  forall j blk, nth_error l j = Some (Some blk) ->
    nth_error nodes j = Some (Some blk) \/
    edge_placed_from locate topology items j blk.
Proof.
  intros E.
  apply (@place_edges_ind _ _ locate
           (fun l0 => forall j blk, nth_error l0 j = Some (Some blk) ->
              nth_error nodes j = Some (Some blk) \/
              edge_placed_from locate topology items j blk)
           topology c invc permutations items) with (l := nodes);
    [| exact E |].
  - intros t edge_bb l0 e l0' Hin He Ht Hl0 Hp j blk Hj.
    apply place_edge_inv in Hp.
    destruct Hp as (n1 & n2 & a1 & a2 & b1 & b2 & r1 & r2 & le & rms & Hp).
    destruct Hp as (Hrec & _ & _ & _ & _ & _ & Hloc & Hs).
    destruct (Nat.eq_dec j e) as [-> | Hne].
    + right. rewrite (setitem_same _ _ _ Hs) in Hj. inversion Hj; subst.
      apply edge_type_eqb_eq in Ht. subst t.
      exists edge_bb, n1, n2, r1, (minimum_image c invc (vsub r2 r1)), le,
        rms.
      repeat (split; [assumption |]). reflexivity.
    + rewrite (setitem_other _ _ Hs Hne) in Hj. now apply Hl0.
  - intros j blk Hj. now left.
Qed.

(** X12.  After a successful build the block found on an edge point [e]
    (one that is not also a node point) was located from a template that
    the mapping stores under the key [get_edge_type e], against a target
    of two points labelled with the two endpoints of [e], and was centred
    midway between these two points. *)
Theorem edge_blocks_come_from_their_type
    {B : Type} `{BuildingBlock B}
    (scale : Topology -> list B -> list (EdgeType * option B) -> Topology)
    (locate : LocalStructure -> B -> result (B * Q))
    (matching_permutation :
       LocalStructure -> LocalStructure -> result (list nat))
    (topology : Topology) (node_bbs : list B)
    (edge_bbs : option (list (EdgeType * option B))) (st : BuildState)
    (e : nat) (blk : B) :
  assemble scale locate matching_permutation topology node_bbs edge_bbs
    = Ok st ->
  ~ In e (node_indices (st_topology st)) ->
  nth_error (st_located st) e = Some (Some blk) ->
  edge_placed_from locate (st_topology st) (edge_items edge_bbs) e blk.
Proof.
  intros Est Hnode Hblk.
  apply assemble_inv in Est. destruct Est as (nodes & perms & invc & A).
  destruct (place_edges_dispatch locate _ _ _ _ _ _ _ (as_place_edges A)
              e blk Hblk) as [Hold | Hnew]; [| exact Hnew].
  exfalso.
  rewrite (place_nodes_other _ _ _ _ _ _ (as_place_nodes A) Hnode) in Hold.
  apply nth_error_In, repeat_spec in Hold. discriminate.
Qed.

Lemma edge_blocks_come_from_their_type_chain :
  exists st blk,
    Chain.assemble_chain Chain.with_linkers = Ok st /\
    nth_error (st_located st) 2 = Some (Some blk) /\
    edge_placed_from Chain.locate (st_topology st)
      (edge_items Chain.with_linkers) 2 blk.
Proof.
  assert (E : exists st blk,
             Chain.assemble_chain Chain.with_linkers = Ok st /\
             nth_error (st_located st) 2 = Some (Some blk) /\
             ~ In 2 (node_indices (st_topology st))).
  { do 2 eexists. split; [vm_compute; reflexivity |].
    split; [vm_compute; reflexivity |].
    simpl. intros [Hn | [Hn | []]]; discriminate. }
  destruct E as (st & blk & E & Hblk & Hnode).
  exists st, blk. split; [exact E |]. split; [exact Hblk |].
  exact (edge_blocks_come_from_their_type Chain.scale Chain.locate
           Chain.matching_permutation Chain.net Chain.node_bbs
           Chain.with_linkers st 2 blk E Hnode Hblk).
Defined.

(** X13.  A point of the scaled topology that is neither a node index nor
    an edge index is left alone by a successful build: it holds no block
    and no permutation, and the offset of the next point is its own. *)
Theorem idle_points_stay_empty
    {B : Type} `{BuildingBlock B}
    (scale : Topology -> list B -> list (EdgeType * option B) -> Topology)
    (locate : LocalStructure -> B -> result (B * Q))
    (matching_permutation :
       LocalStructure -> LocalStructure -> result (list nat))
    (topology : Topology) (node_bbs : list B)
    (edge_bbs : option (list (EdgeType * option B))) (st : BuildState)
    (i : nat) :
  assemble scale locate matching_permutation topology node_bbs edge_bbs
    = Ok st ->
  i < n_all_points (st_topology st) ->
  ~ In i (node_indices (st_topology st)) ->
  ~ In i (edge_indices (st_topology st)) ->
  nth_error (st_located st) i = Some None /\
  nth_error (st_permutations st) i = Some None /\
  (S i < n_all_points (st_topology st) ->
   offset_at (st_offsets st) (S i) = offset_at (st_offsets st) i).
Proof.
  intros Est Hi Hnode Hedge.
  apply assemble_inv in Est. destruct Est as (nodes & perms & invc & A).
  destruct (place_edges_centred _ _ _ _ _ _ _ (as_place_edges A))
    as (Hagree & _).
  destruct (node_permutations_spec matching_permutation _ _ _ _ _
              (as_node_permutations A)) as (_ & Hkeep1 & _).
  destruct (edge_permutations_spec matching_permutation _ _ _ _ _
              (as_edge_permutations A)) as (_ & Hkeep2 & _).
  assert (HL : nth_error (st_located st) i = Some None).
  { rewrite (Hagree i Hedge).
    rewrite (place_nodes_other _ _ _ _ _ _ (as_place_nodes A) Hnode).
    now apply nth_error_repeat. }
  split; [exact HL |]. split.
  - rewrite (Hkeep2 i (or_introl Hedge)), (Hkeep1 i Hnode).
    now apply nth_error_repeat.
  - intros HS.
    assert (Hn : length (st_located st) = n_all_points (st_topology st)).
    { rewrite (place_edges_length _ _ _ _ _ _ _ (as_place_edges A)).
      rewrite (place_nodes_length _ _ _ _ _ (as_place_nodes A)).
      apply repeat_length. }
    rewrite (offset_at_prefix _ (as_offsets A) Hn HS).
    rewrite (offset_at_prefix _ (as_offsets A) Hn Hi).
    rewrite (@prefix_sum_step _ _ (st_located st) i) by lia.
    rewrite (nth_error_nth _ _ None HL). simpl. lia.
Qed.

Lemma idle_points_stay_empty_chain :
  exists st,
    assemble Chain.scale Chain.locate Chain.matching_permutation
      (with_idle_point Chain.net) Chain.node_bbs Chain.with_linkers = Ok st /\
    nth_error (st_located st) 4 = Some None /\
    nth_error (st_permutations st) 4 = Some None.
Proof.
  assert (E : exists st,
             assemble Chain.scale Chain.locate Chain.matching_permutation
               (with_idle_point Chain.net) Chain.node_bbs Chain.with_linkers
             = Ok st /\
             4 < n_all_points (st_topology st) /\
             ~ In 4 (node_indices (st_topology st)) /\
             ~ In 4 (edge_indices (st_topology st))).
  { eexists. split; [vm_compute; reflexivity |].
    simpl. split; [lia |].
    split; intros [Hn | [Hn | []]]; discriminate. }
  destruct E as (st & E & Hlt & Hnode & Hedge).
  destruct (idle_points_stay_empty Chain.scale Chain.locate
              Chain.matching_permutation (with_idle_point Chain.net)
              Chain.node_bbs Chain.with_linkers st 4 E Hlt Hnode Hedge)
    as (HL & HP & _).
  exists st. auto.
Defined.
